(** * Grid layout and slide animation of [generate_cabinet_grid.py]

    A shallow embedding of [calculate_grid_layout], [create_grid_segment],
    [generate_grid_sequence] and the segment loop of [main], together with
    the properties of the layout geometry and of the overlay position
    expressions handed to the compositor; and of the arithmetic around
    them: the number of loops of [create_looped_cabinet], the start time
    [extract_clips] chooses, and the prompts of [get_user_config].

    Numbers.  Python's [/] is true division and yields a [float]; [int(x)]
    truncates toward zero.  The layout code is written once, over an
    interface [PyFloat] of the float operations it uses, and the interface is
    instantiated twice:
    - [exact]: floats are rationals ([Q]) and every operation is exact.  The
      geometric theorems (the ones quantified over all inputs) are stated for
      this instance: they are statements about the layout formulas, not about
      rounding.
    - [binary64]: floats are IEEE 754 doubles (Rocq's primitive floats, the
      same format as CPython's [float]).  The concrete scenarios and every
      counterexample are evaluated under this instance as well, and so are
      the bounds on the configurations the prompts lead to.  The two
      instances can differ by a pixel ([doubles_round_below_exact]).
    What does not depend on the arithmetic (which cells a layout has, which
    exceptions can be raised, which overlay a call produces) is proved for
    any instance. *)

From Stdlib Require Import ZArith QArith Qround Qminmax Lia Lqa String.
From Stdlib Require Import Floats.
From stdpp Require Import base tactics option list list_numbers gmap.

Local Open Scope Z_scope.

(** ** Exceptions and the error monad *)

Inductive exn : Type :=
  | ZeroDivisionError
  | OverflowError
  | ValueError
  | NameError
  | KeyError.

Inductive result (A : Type) : Type :=
  | Ok (a : A)
  | Raise (e : exn).
Arguments Ok {A} a.
Arguments Raise {A} e.

#[export] Instance result_bind : MBind result := fun A B k m =>
  match m with
  | Ok a => k a
  | Raise e => Raise e
  end.

(** [for x in xs: acc = body(acc, x)], stopping at the first exception. *)
Fixpoint for_each {A S : Type} (xs : list A) (body : S -> A -> result S)
    (acc : S) : result S :=
  match xs with
  | [] => Ok acc
  | x :: xs' => acc' ← body acc x; for_each xs' body acc'
  end.

(** [range(n)]: [0, 1, ..., n-1], empty when [n <= 0]. *)
Definition range (n : Z) : list Z := seqZ 0 n.

(** ** The float operations used by the program *)

Class PyFloat (F : Type) : Type := {
  (** [float(n)]; [None] is the OverflowError of an int too large. *)
  float_of_int : Z -> option F;
  (** the literal [0.95] *)
  lit_0_95 : F;
  fadd : F -> F -> F;
  fsub : F -> F -> F;
  fmul : F -> F -> F;
  (** quotient by a divisor already checked to be non-zero *)
  fdiv : F -> F -> F;
  (** [x == 0.0] *)
  fis_zero : F -> bool;
  (** [x < y] *)
  flt : F -> F -> bool;
  (** [x != x]: only NaN *)
  fis_nan : F -> bool;
  (** [int(x)]: truncation toward zero; [None] on infinities and NaN. *)
  int_of_float : F -> option Z
}.

(** Truncation of a rational toward zero. *)
Definition Qtrunc (q : Q) : Z := Z.quot (Qnum q) (Zpos (Qden q)).

Definition Qlt_bool (x y : Q) : bool :=
  (Qnum x * Zpos (Qden y) <? Qnum y * Zpos (Qden x))%Z.

#[export] Instance exact : PyFloat Q := {|
  float_of_int n := Some (inject_Z n);
  lit_0_95 := 95 # 100;
  fadd := Qplus;
  fsub := Qminus;
  fmul := Qmult;
  fdiv := Qdiv;
  fis_zero x := (Qnum x =? 0)%Z;
  flt := Qlt_bool;
  fis_nan _ := false;
  int_of_float x := Some (Qtrunc x)
|}.

(** [int(x)] of a double, read off its sign, mantissa and exponent. *)
Definition trunc_float (x : float) : option Z :=
  match Prim2SF x with
  | S754_zero _ => Some 0
  | S754_infinity _ => None
  | S754_nan => None
  | S754_finite s m e =>
      let v := if (0 <=? e)%Z then Zpos m * 2 ^ e else Zpos m / 2 ^ (- e) in
      Some (if s then - v else v)
  end.

(** [float(n)] of a Python int: round to nearest even, OverflowError beyond
    the range of a double. *)
Definition float_of_Z (n : Z) : option float :=
  let x := SF2Prim (binary_normalize prec emax n 0 false) in
  if PrimFloat.is_infinity x then None else Some x.

#[export] Instance binary64 : PyFloat float := {|
  float_of_int := float_of_Z;
  (* the double nearest to 0.95, as the literal denotes *)
  lit_0_95 := 0x1.e666666666666p-1%float;
  fadd := PrimFloat.add;
  fsub := PrimFloat.sub;
  fmul := PrimFloat.mul;
  fdiv := PrimFloat.div;
  fis_zero := PrimFloat.is_zero;
  flt := PrimFloat.ltb;
  fis_nan := PrimFloat.is_nan;
  int_of_float := trunc_float
|}.

(** ** Python numbers: an [int] or a [float] *)

Inductive pynum (F : Type) : Type :=
  | PyInt (n : Z)
  | PyFlt (x : F).
Arguments PyInt {F} n.
Arguments PyFlt {F} x.

Section Numbers.
Context {F : Type} `{PyFloat F}.

Definition to_float (n : Z) : result F :=
  match float_of_int n with
  | Some x => Ok x
  | None => Raise OverflowError
  end.

Definition as_float (a : pynum F) : result F :=
  match a with
  | PyInt n => to_float n
  | PyFlt x => Ok x
  end.

Definition is_zero (a : pynum F) : bool :=
  match a with
  | PyInt n => (n =? 0)%Z
  | PyFlt x => fis_zero x
  end.

Definition arith (fi : Z -> Z -> Z) (ff : F -> F -> F) (a b : pynum F)
    : result (pynum F) :=
  match a, b with
  | PyInt m, PyInt n => Ok (PyInt (fi m n))
  | _, _ => x ← as_float a; y ← as_float b; Ok (PyFlt (ff x y))
  end.

(** [a + b], [a - b], [a * b]: int when both are ints, float otherwise. *)
Definition py_add := arith Z.add fadd.
Definition py_sub := arith Z.sub fsub.
Definition py_mul := arith Z.mul fmul.

(** [a / b]: always a float; ZeroDivisionError on a zero divisor.  For two
    ints CPython rounds the exact quotient once; this is [float(a)/float(b)]
    whenever both are below [2^53] in absolute value. *)
Definition py_truediv (a b : pynum F) : result (pynum F) :=
  if is_zero b then Raise ZeroDivisionError
  else x ← as_float a; y ← as_float b; Ok (PyFlt (fdiv x y)).

(** [a < b]; the program compares floats only. *)
Definition py_lt (a b : pynum F) : result bool :=
  match a, b with
  | PyInt m, PyInt n => Ok (m <? n)%Z
  | _, _ => x ← as_float a; y ← as_float b; Ok (flt x y)
  end.

(** [min(a, b)]: the second argument only when it is strictly less. *)
Definition py_min (a b : pynum F) : result (pynum F) :=
  py_lt b a ≫= λ c : bool, Ok (if c then b else a).

(** [int(a)]: ValueError on NaN, OverflowError on an infinity. *)
Definition py_int (a : pynum F) : result Z :=
  match a with
  | PyInt n => Ok n
  | PyFlt x =>
      match int_of_float x with
      | Some n => Ok n
      | None => Raise (if fis_nan x then ValueError else OverflowError)
      end
  end.

(** [a // b] and [a % b] on ints (floor division, sign of the divisor). *)
Definition py_floordiv (a b : Z) : result Z :=
  if (b =? 0)%Z then Raise ZeroDivisionError else Ok (a / b).
Definition py_mod (a b : Z) : result Z :=
  if (b =? 0)%Z then Raise ZeroDivisionError else Ok (a mod b).

(** An int operand and an operand read from a variable. *)
Definition lit (n : Z) : result (pynum F) := Ok (PyInt n).
Definition val (a : pynum F) : result (pynum F) := Ok a.

(** Operands are evaluated left to right, then the operator is applied. *)
Definition binop (op : pynum F -> pynum F -> result (pynum F))
    (a b : result (pynum F)) : result (pynum F) :=
  x ← a; y ← b; op x y.
End Numbers.

Declare Scope py_scope.
Delimit Scope py_scope with py.
Notation "a + b" := (binop py_add a b) (only parsing) : py_scope.
Notation "a - b" := (binop py_sub a b) (only parsing) : py_scope.
Notation "a * b" := (binop py_mul a b) (only parsing) : py_scope.
Notation "a / b" := (binop py_truediv a b) (only parsing) : py_scope.
Notation "'min' ( a , b )" := (binop py_min a b)
  (at level 0, only parsing) : py_scope.
Notation "'int' ( a )" := (mbind py_int a)
  (at level 0, only parsing) : py_scope.

(** ** Module-level configuration *)

(** The globals read by the layout code, the segment code and
    [generate_grid_sequence].  [SLIDE_DURATION] is read by
    [create_grid_segment] but bound nowhere in the module: [None] is the
    unbound name. *)
Record globals : Type := {
  OUTPUT_WIDTH : Z;
  OUTPUT_HEIGHT : Z;
  MAX_GRID_SIZE : Z;
  USE_CABINET : bool;
  SPACING_MODE : string;
  CABINET_PNG_WIDTH : Z;
  CABINET_PNG_HEIGHT : Z;
  SLIDE_DURATION : option Q
}.

(** The values the module assigns at import time. *)
Definition defaults : globals := {|
  OUTPUT_WIDTH := 1920;
  OUTPUT_HEIGHT := 1080;
  MAX_GRID_SIZE := 5;
  USE_CABINET := true;
  SPACING_MODE := "even";
  CABINET_PNG_WIDTH := 659;
  CABINET_PNG_HEIGHT := 741;
  SLIDE_DURATION := None
|}.

(** ** [calculate_grid_layout] *)

(** The [positions] dict: cell index to top-left corner. *)
Abbreviation positions_t := (gmap Z (Z * Z)).

Section Layout.
Context {F : Type} `{PyFloat F}.
Variable g : globals.

(** "Determine base video aspect ratio" *)
Definition base_video : Z * Z :=
  if USE_CABINET g then (CABINET_PNG_WIDTH g, CABINET_PNG_HEIGHT g)
  else (1920, 1080).

(** The three branches on [SPACING_MODE]: scaled cell size and gaps. *)
Definition scaled_and_gaps (rows cols : Z)
    : result (Z * Z * pynum F * pynum F) :=
  let '(video_width, video_height) := base_video in
  if String.eqb (SPACING_MODE g) "none" then
    available_width ← (lit (OUTPUT_WIDTH g) / lit cols)%py;
    available_height ← (lit (OUTPUT_HEIGHT g) / lit rows)%py;
    scale_factor_w ← (val available_width / lit video_width)%py;
    scale_factor_h ← (val available_height / lit video_height)%py;
    scale_factor ← (min(val scale_factor_w, val scale_factor_h))%py;
    scaled_video_width ← (int(lit video_width * val scale_factor))%py;
    scaled_video_height ← (int(lit video_height * val scale_factor))%py;
    Ok (scaled_video_width, scaled_video_height, PyInt 0, PyInt 0)
  else if String.eqb (SPACING_MODE g) "minimal" then
    let gap_size := 10 in
    let total_h_gaps := gap_size * (cols + 1) in
    let total_v_gaps := gap_size * (rows + 1) in
    let available_for_videos_w := OUTPUT_WIDTH g - total_h_gaps in
    let available_for_videos_h := OUTPUT_HEIGHT g - total_v_gaps in
    scale_factor_w ←
      ((lit available_for_videos_w / lit cols) / lit video_width)%py;
    scale_factor_h ←
      ((lit available_for_videos_h / lit rows) / lit video_height)%py;
    scale_factor ← (min(val scale_factor_w, val scale_factor_h))%py;
    scaled_video_width ← (int(lit video_width * val scale_factor))%py;
    scaled_video_height ← (int(lit video_height * val scale_factor))%py;
    Ok (scaled_video_width, scaled_video_height,
        PyInt gap_size, PyInt gap_size)
  else
    available_width ← (lit (OUTPUT_WIDTH g) / lit cols)%py;
    available_height ← (lit (OUTPUT_HEIGHT g) / lit rows)%py;
    scale_factor_w ← (val available_width / lit video_width)%py;
    scale_factor_h ← (val available_height / lit video_height)%py;
    scale_factor ←
      (min(val scale_factor_w, val scale_factor_h) * val (PyFlt lit_0_95))%py;
    scaled_video_width ← (int(lit video_width * val scale_factor))%py;
    scaled_video_height ← (int(lit video_height * val scale_factor))%py;
    let total_video_width := scaled_video_width * cols in
    let total_video_height := scaled_video_height * rows in
    let remaining_width := OUTPUT_WIDTH g - total_video_width in
    let remaining_height := OUTPUT_HEIGHT g - total_video_height in
    h_gap ← (lit remaining_width / lit (cols + 1))%py;
    v_gap ← (lit remaining_height / lit (rows + 1))%py;
    Ok (scaled_video_width, scaled_video_height, h_gap, v_gap).

(** One iteration of the loop that fills [positions]. *)
Definition place (cols : Z) (scaled_video_width scaled_video_height : Z)
    (h_gap v_gap offset_x offset_y : pynum F)
    (positions : positions_t) (i : Z) : result positions_t :=
  row ← py_floordiv i cols;
  col ← py_mod i cols;
  x ← (int(val offset_x
           + lit col * (lit scaled_video_width + val h_gap)))%py;
  y ← (int(val offset_y
           + lit row * (lit scaled_video_height + val v_gap)))%py;
  Ok (<[i := (x, y)]> positions).

Definition calculate_grid_layout (rows cols : Z)
    : result (Z * Z * positions_t) :=
  '(scaled_video_width, scaled_video_height, h_gap, v_gap) ←
    scaled_and_gaps rows cols;
  (* Calculate total grid dimensions *)
  total_grid_width ←
    (lit scaled_video_width * lit cols + val h_gap * lit (cols - 1))%py;
  total_grid_height ←
    (lit scaled_video_height * lit rows + val v_gap * lit (rows - 1))%py;
  (* Calculate offset to center the entire grid *)
  offset_x ← ((lit (OUTPUT_WIDTH g) - val total_grid_width) / lit 2)%py;
  offset_y ← ((lit (OUTPUT_HEIGHT g) - val total_grid_height) / lit 2)%py;
  (* Calculate positions for all videos in grid (centered) *)
  positions ←
    for_each (range (rows * cols))
      (place cols scaled_video_width scaled_video_height
         h_gap v_gap offset_x offset_y) ∅;
  Ok (scaled_video_width, scaled_video_height, positions).
End Layout.

(** ** Overlay position expressions

    [create_grid_segment] writes each animated coordinate as the text of an
    expression of the compositor's expression language, over the variable
    [t] (seconds since the segment started):
    [if(lt(t,D), start + (end - start) * (3*pow(t/D,2) - 2*pow(t/D,3)), end)].
    The text is represented by its syntax tree, a number in the text by the
    number. *)

Inductive expr : Type :=
  | Tvar
  | Const (q : Q)
  | Add (a b : expr)
  | Sub (a b : expr)
  | Mul (a b : expr)
  | Div (a b : expr)
  | Pow (a : expr) (n : nat)
  | Lt (a b : expr)
  | If (c a b : expr).

(** [t_norm = f't/{SLIDE_DURATION}'] *)
Definition t_norm (D : Q) : expr := Div Tvar (Const D).

(** [smoothstep = f'(3*pow({t_norm},2) - 2*pow({t_norm},3))'] *)
Definition smoothstep (D : Q) : expr :=
  Sub (Mul (Const 3) (Pow (t_norm D) 2)) (Mul (Const 2) (Pow (t_norm D) 3)).

(** [x_expr] and [y_expr]:
    [f"'if(lt(t,{D}), {start} + ({end} - {start}) * {smoothstep}, {end})'"] *)
Definition slide_expr (D : Q) (start_ end_ : Z) : expr :=
  If (Lt Tvar (Const D))
     (Add (Const (inject_Z start_))
          (Mul (Sub (Const (inject_Z end_)) (Const (inject_Z start_)))
               (smoothstep D)))
     (Const (inject_Z end_)).

(** Value of an expression at time [t].  [if] evaluates only the branch it
    selects; [lt] is 1 or 0; [None] when a division by zero is evaluated. *)
Fixpoint eval (t : Q) (e : expr) : option Q :=
  match e with
  | Tvar => Some t
  | Const q => Some q
  | Add a b => x ← eval t a; y ← eval t b; Some (x + y)%Q
  | Sub a b => x ← eval t a; y ← eval t b; Some (x - y)%Q
  | Mul a b => x ← eval t a; y ← eval t b; Some (x * y)%Q
  | Div a b =>
      x ← eval t a; y ← eval t b;
      if Qeq_bool y 0 then None else Some (x / y)%Q
  | Pow a n => x ← eval t a; Some (x ^ Z.of_nat n)%Q
  | Lt a b =>
      x ← eval t a; y ← eval t b; Some (if Qlt_bool x y then 1%Q else 0%Q)
  | If c a b =>
      v ← eval t c; if Qeq_bool v 0 then eval t b else eval t a
  end.

(** ** [create_grid_segment] *)

(** How one cell is overlaid on the canvas: at a fixed point
    ([overlay={end_x}:{end_y}]) or along two expressions of [t]
    ([overlay=x={x_expr}:y={y_expr}]). *)
Inductive overlay : Type :=
  | Static (end_x end_y : Z)
  | Animated (x_expr y_expr : expr).

(** What the function hands to the compositor: the input chosen for each
    cell, the size every input is scaled to, and the overlay of each cell in
    index order.  Running the compositor is outside the model. *)
Record segment : Type := {
  seg_inputs : list Z;
  seg_scale : Z * Z;
  seg_overlays : list overlay
}.

(** Truth value of an argument that is an int or [None]. *)
Definition truthy (a : option Z) : bool :=
  match a with
  | Some n => negb (n =? 0)%Z
  | None => false
  end.

(** [d[i]] *)
Definition getitem (d : positions_t) (i : Z) : result (Z * Z) :=
  match d !! i with
  | Some p => Ok p
  | None => Raise KeyError
  end.

Section Segment.
Context {F : Type} `{PyFloat F}.
Variable g : globals.

(** The global [SLIDE_DURATION]: NameError when unbound. *)
Definition read_SLIDE_DURATION : result Q :=
  match SLIDE_DURATION g with
  | Some D => Ok D
  | None => Raise NameError
  end.

(** Body of the loop "Overlay videos with position animations". *)
Definition overlay_cell (positions prev_positions : positions_t)
    (prev_num_videos : Z) (slide_from : option string)
    (prev_rows prev_cols : option Z) (i : Z) : result overlay :=
  '(end_x, end_y) ← getitem positions i;
  let is_new := (prev_num_videos <=? i)%Z in
  if bool_decide (slide_from = None)
     || negb (truthy prev_rows && truthy prev_cols) then
    Ok (Static end_x end_y)
  else
    '(start_x, start_y) ←
      (if is_new then
         if bool_decide (slide_from = Some "right"%string) then
           Ok (OUTPUT_WIDTH g, end_y)
         else
           Ok (end_x, OUTPUT_HEIGHT g)
       else getitem prev_positions i);
    D ← read_SLIDE_DURATION;
    Ok (Animated (slide_expr D start_x end_x) (slide_expr D start_y end_y)).

(** "Determine which videos are new vs existing": the number of cells of
    the previous grid and their positions, [0] and [{}] without one. *)
Definition previous_layout (prev_rows prev_cols : option Z)
    : result (Z * positions_t) :=
  if truthy prev_rows && truthy prev_cols then
    let pr := default 0 prev_rows in
    let pc := default 0 prev_cols in
    let prev_num_videos := pr * pc in
    '(_, _, prev_positions) ← calculate_grid_layout g pr pc;
    Ok (prev_num_videos, prev_positions)
  else Ok (0, ∅).

(** The arguments [segment_duration] and [output_file] of the source only
    go into the command line of the compositor and are left out. *)
Definition create_grid_segment (grid_videos : list string) (rows cols : Z)
    (slide_from : option string) (prev_rows prev_cols : option Z)
    : result segment :=
  let num_videos := rows * cols in
  '(scaled_video_width, scaled_video_height, positions) ←
    calculate_grid_layout g rows cols;
  '(prev_num_videos, prev_positions) ← previous_layout prev_rows prev_cols;
  (* Add videos as inputs *)
  input_args ←
    for_each (range num_videos)
      (λ acc i,
         video_idx ← py_mod i (Z.of_nat (length grid_videos));
         Ok (acc ++ [video_idx])) [];
  (* Overlay videos with position animations *)
  overlays ←
    for_each (range num_videos)
      (λ acc i,
         o ← overlay_cell positions prev_positions prev_num_videos
               slide_from prev_rows prev_cols i;
         Ok (acc ++ [o])) [];
  Ok {| seg_inputs := input_args;
        seg_scale := (scaled_video_width, scaled_video_height);
        seg_overlays := overlays |}.

(** ** [generate_grid_sequence] and the segment loop of [main] *)

(** [(size, size) for size in range(1, MAX_GRID_SIZE + 1)] *)
Definition generate_grid_sequence : list (Z * Z) :=
  (λ size, (size, size)) <$> seqZ 1 (MAX_GRID_SIZE g).

(** "Create segments for each grid state": every call passes
    [None, None, None] for [slide_from, prev_rows, prev_cols]; an exception
    ends the loop. *)
Definition main_segments (grid_videos : list string)
    : result (list segment) :=
  for_each generate_grid_sequence
    (λ acc '(rows, cols),
       s ← create_grid_segment grid_videos rows cols None None None;
       Ok (acc ++ [s])) [].
End Segment.

(** ** Position of a cell at a time

    The point at which the compositor draws cell [i] of a segment [t]
    seconds after the segment starts (the specification's [positionAt]);
    [None] when the segment has no such cell or an expression divides by
    zero. *)
Definition positionAt (s : segment) (i : Z) (t : Q) : option (Q * Q) :=
  if (i <? 0)%Z then None
  else
    o ← seg_overlays s !! Z.to_nat i;
    match o with
    | Static end_x end_y => Some (inject_Z end_x, inject_Z end_y)
    | Animated x_expr y_expr =>
        x ← eval t x_expr; y ← eval t y_expr; Some (x, y)
    end.

(** ** Looping a clip

    [create_looped_cabinet], and the loop of [main] for raw clips, write the
    clip [num_loops] times into a concat file that is then cut to
    [duration]. *)

Section Looping.
Context {F : Type} `{PyFloat F}.

(** [not clip_duration], for the float or [None] that [get_video_duration]
    returns. *)
Definition not_duration (clip_duration : option F) : bool :=
  match clip_duration with
  | Some c => fis_zero c
  | None => true
  end.

(** [num_loops = int(duration / clip_duration) + 2]; [None] where the
    source gives up on a clip without a duration ([return False] in
    [create_looped_cabinet], [sys.exit(1)] in [main]). *)
Definition num_loops (duration : pynum F) (clip_duration : option F)
    : result (option Z) :=
  match clip_duration with
  | Some c =>
      if not_duration (Some c) then Ok None
      else
        n ← (int(val duration / val (PyFlt c)))%py;
        Ok (Some (n + 2))
  | None => Ok None
  end.

End Looping.

(** ** Choosing where a clip starts: [extract_clips] *)

(** The global [AVOID_EDGES], assigned once at import time. *)
Definition AVOID_EDGES : Z := 10.

Section ClipStart.
Context {F : Type} `{PyFloat F}.

(** [random.uniform(a, b)] is [a + (b - a) * random()]; [r] is the value
    [random()] draws from [[0, 1)]. *)
Definition uniform (a b : pynum F) (r : F) : result (pynum F) :=
  (val a + (val b - val a) * val (PyFlt r))%py.

(** The start time chosen for one clip, from the duration of the source
    video ([None] when [get_video_duration] fails) and the global
    [CLIP_DURATION]; [None] where the loop skips the video. *)
Definition start_time (CLIP_DURATION : pynum F) (duration : option F)
    (r : F) : result (option (pynum F)) :=
  match duration with
  | None => Ok None
  | Some d =>
      needed ← (val CLIP_DURATION + lit 2 * lit AVOID_EDGES)%py;
      too_short ← py_lt (PyFlt d) needed;
      if too_short : bool then Ok None
      else
        max_start ← (val (PyFlt d) - val CLIP_DURATION - lit AVOID_EDGES)%py;
        s ← uniform (PyInt AVOID_EDGES) max_start r;
        Ok (Some s)
  end.
End ClipStart.

(** ** [get_user_config]

    The prompts read lines from standard input; every [while True] loop
    reads at least one line per turn, so the loops are recursions on the
    lines that are left.  The [print] calls are left out. *)

(** The globals that the layout does not read and the prompts assign. *)
Record clip_settings (F : Type) : Type := {
  TOTAL_CLIPS : Z;
  CLIP_DURATION : pynum F;
  CROP_TOP : Z;
  CROP_RIGHT : Z;
  CROP_BOTTOM : Z;
  CROP_LEFT : Z
}.
Arguments TOTAL_CLIPS {F} _.
Arguments CLIP_DURATION {F} _.
Arguments CROP_TOP {F} _.
Arguments CROP_RIGHT {F} _.
Arguments CROP_BOTTOM {F} _.
Arguments CROP_LEFT {F} _.

(** How the prompts end: the function returns, an exception other than
    the ones it catches is raised, [sys.exit(code)] is called, or [input()]
    finds standard input at its end (EOFError). *)
Inductive outcome (A : Type) : Type :=
  | Returned (a : A)
  | Raised (e : exn)
  | Exited (code : Z)
  | EndOfInput.
Arguments Returned {A} a.
Arguments Raised {A} e.
Arguments Exited {A} code.
Arguments EndOfInput {A}.

#[export] Instance outcome_bind : MBind outcome := fun A B k m =>
  match m with
  | Returned a => k a
  | Raised e => Raised e
  | Exited code => Exited code
  | EndOfInput => EndOfInput
  end.

(** [input(...)]: the next line and the lines left. *)
Definition input (lines : list string) : outcome (string * list string) :=
  match lines with
  | [] => EndOfInput
  | l :: rest => Returned (l, rest)
  end.

(** [s or d] on strings: [d] when [s] is empty. *)
Definition str_or (s d : string) : string :=
  if String.eqb s "" then d else s.

(** [spacing_map], with [None] for a key it does not have. *)
Definition spacing_map (key : string) : option string :=
  if String.eqb key "1" then Some "even"%string
  else if String.eqb key "2" then Some "minimal"%string
  else if String.eqb key "3" then Some "none"%string
  else None.

Section Prompts.
Context {F : Type} `{PyFloat F}.
(** [str.strip], [str.lower], and [int(s)] and [float(s)] of a string, where
    [None] is the ValueError that the prompts catch. *)
Variables strip lower : string -> string.
Variable int_of_str : string -> option Z.
Variable float_of_str : string -> option F.

(** "Ask about spacing" *)
Fixpoint ask_spacing (lines : list string) : outcome (string * list string) :=
  match lines with
  | [] => EndOfInput
  | l :: rest =>
      let spacing_choice := str_or (strip l) "1" in
      match spacing_map spacing_choice with
      | Some mode => Returned (mode, rest)
      | None => ask_spacing rest
      end
  end.

(** "Output resolution" *)
Fixpoint ask_resolution (lines : list string)
    : outcome (Z * Z * list string) :=
  match lines with
  | [] => EndOfInput
  | l :: rest =>
      let choice := str_or (strip l) "1" in
      if String.eqb choice "1" then Returned (1920, 1080, rest)
      else if String.eqb choice "2" then Returned (3840, 2160, rest)
      else ask_resolution rest
  end.

(** "Maximum grid size" *)
Fixpoint ask_grid_size (lines : list string) : outcome (Z * list string) :=
  match lines with
  | [] => EndOfInput
  | l :: rest =>
      let grid_input := strip l in
      if String.eqb grid_input "" then Returned (5, rest)
      else
        match int_of_str grid_input with
        | Some n => if (0 <? n)%Z then Returned (n, rest)
                    else ask_grid_size rest
        | None => ask_grid_size rest
        end
  end.

(** "Number of unique clips" *)
Fixpoint ask_clips (max_clips_needed : Z) (lines : list string)
    : outcome (Z * list string) :=
  match lines with
  | [] => EndOfInput
  | l :: rest =>
      let clips_input := strip l in
      if String.eqb clips_input "" then Returned (max_clips_needed, rest)
      else
        match int_of_str clips_input with
        | Some n => if (0 <? n)%Z then Returned (n, rest)
                    else ask_clips max_clips_needed rest
        | None => ask_clips max_clips_needed rest
        end
  end.

(** "Clip duration": the int [10] by default, else a float that is
    [> 0]. *)
Fixpoint ask_duration (lines : list string)
    : outcome (pynum F * list string) :=
  match lines with
  | [] => EndOfInput
  | l :: rest =>
      let duration_input := strip l in
      if String.eqb duration_input "" then Returned (PyInt 10, rest)
      else
        match float_of_str duration_input with
        | Some x =>
            match py_lt (PyInt 0) (PyFlt x) with
            | Ok true => Returned (PyFlt x, rest)
            | Ok false => ask_duration rest
            | Raise e => Raised e
            end
        | None => ask_duration rest
        end
  end.

(** [int(s) if s else 0] *)
Definition int_or_0 (s : string) : option Z :=
  if String.eqb s "" then Some 0 else int_of_str s.

(** The loop of "Source video cropping": four lines per turn, fewer when
    one of them is not a number; top, right, bottom, left. *)
Fixpoint ask_crops (lines : list string)
    : outcome (Z * Z * Z * Z * list string) :=
  match lines with
  | [] => EndOfInput
  | l1 :: rest1 =>
      match int_or_0 (strip l1) with
      | None => ask_crops rest1
      | Some crop_top =>
          match rest1 with
          | [] => EndOfInput
          | l2 :: rest2 =>
              match int_or_0 (strip l2) with
              | None => ask_crops rest2
              | Some crop_right =>
                  match rest2 with
                  | [] => EndOfInput
                  | l3 :: rest3 =>
                      match int_or_0 (strip l3) with
                      | None => ask_crops rest3
                      | Some crop_bottom =>
                          match rest3 with
                          | [] => EndOfInput
                          | l4 :: rest4 =>
                              match int_or_0 (strip l4) with
                              | None => ask_crops rest4
                              | Some crop_left =>
                                  if (0 <=? crop_top)%Z
                                     && (0 <=? crop_right)%Z
                                     && (0 <=? crop_bottom)%Z
                                     && (0 <=? crop_left)%Z
                                  then
                                    Returned (crop_top, crop_right,
                                              crop_bottom, crop_left, rest4)
                                  else ask_crops rest4
                              end
                          end
                      end
                  end
              end
          end
      end
  end.

(** The globals after the prompts, from the globals before them, and the
    lines left. *)
Definition get_user_config (g : globals) (s : clip_settings F)
    (lines : list string)
    : outcome (globals * clip_settings F * list string) :=
  '(l, lines) ← input lines;
  let cabinet_choice := lower (strip l) in
  let use_cabinet := negb (String.eqb cabinet_choice "n") in
  '(spacing_mode, lines) ← ask_spacing lines;
  '(output_width, output_height, lines) ← ask_resolution lines;
  '(max_grid_size, lines) ← ask_grid_size lines;
  let max_clips_needed := (max_grid_size * max_grid_size)%Z in
  '(total_clips, lines) ← ask_clips max_clips_needed lines;
  '(clip_duration, lines) ← ask_duration lines;
  '(l, lines) ← input lines;
  let crop_choice := lower (strip l) in
  '(crop_top, crop_right, crop_bottom, crop_left, lines) ←
    (if String.eqb crop_choice "y" then ask_crops lines
     else Returned (CROP_TOP s, CROP_RIGHT s, CROP_BOTTOM s, CROP_LEFT s,
                    lines));
  '(l, lines) ← input lines;
  let confirm := lower (strip l) in
  if negb (String.eqb confirm "") && negb (String.eqb confirm "y") then
    Exited 0
  else
    Returned
      ({| OUTPUT_WIDTH := output_width;
          OUTPUT_HEIGHT := output_height;
          MAX_GRID_SIZE := max_grid_size;
          USE_CABINET := use_cabinet;
          SPACING_MODE := spacing_mode;
          CABINET_PNG_WIDTH := CABINET_PNG_WIDTH g;
          CABINET_PNG_HEIGHT := CABINET_PNG_HEIGHT g;
          SLIDE_DURATION := SLIDE_DURATION g |},
       {| TOTAL_CLIPS := total_clips;
          CLIP_DURATION := clip_duration;
          CROP_TOP := crop_top;
          CROP_RIGHT := crop_right;
          CROP_BOTTOM := crop_bottom;
          CROP_LEFT := crop_left |},
       lines).
End Prompts.

(** The values the module assigns to these globals at import time. *)
Definition default_clip_settings {F : Type} : clip_settings F := {|
  TOTAL_CLIPS := 25;
  CLIP_DURATION := PyInt 10;
  CROP_TOP := 0;
  CROP_RIGHT := 0;
  CROP_BOTTOM := 0;
  CROP_LEFT := 0
|}.

(** * Specification vocabulary *)

(** ** Computations that return *)

(** [returns m P]: [m] raises nothing and its value satisfies [P]. *)
Definition returns {A : Type} (m : result A) (P : A -> Prop) : Prop :=
  match m with
  | Ok a => P a
  | Raise _ => False
  end.

(** ** The exact instance: numbers as rationals *)

(** The rational a Python number stands for. *)
Definition qv (a : pynum Q) : Q :=
  match a with
  | PyInt n => inject_Z n
  | PyFlt x => x
  end.

(** [m] evaluates to a number whose value is [q]. *)
Definition denotes (m : result (pynum Q)) (q : Q) : Prop :=
  returns m (λ a, (qv a == q)%Q).

(** ** Closed forms of the layout quantities *)

Section ClosedForms.
Variable g : globals.

Definition mode_none : bool := String.eqb (SPACING_MODE g) "none".
Definition mode_minimal : bool :=
  negb mode_none && String.eqb (SPACING_MODE g) "minimal".

(** Canvas space left for the cells on an axis with [n] cells. *)
Definition available (canvas n : Z) : Z :=
  if mode_minimal then canvas - 10 * (n + 1) else canvas.

Definition headroom : Q := if mode_none || mode_minimal then 1 else 95 # 100.

Definition scale_factor (rows cols : Z) : Q :=
  Qmin (inject_Z (available (OUTPUT_WIDTH g) cols) / inject_Z cols
          / inject_Z (base_video g).1)
       (inject_Z (available (OUTPUT_HEIGHT g) rows) / inject_Z rows
          / inject_Z (base_video g).2)
  * headroom.

Definition gap (canvas scaled n : Z) : Q :=
  if mode_none then 0
  else if mode_minimal then 10
  else inject_Z (canvas - scaled * n) / inject_Z (n + 1).

(** Centering offset and cell coordinate on one axis: [canvas] pixels,
    [n] cells of [scaled] pixels, cell number [k] on that axis. *)
Definition offset (canvas scaled n : Z) : Q :=
  (inject_Z canvas
   - (inject_Z scaled * inject_Z n
      + gap canvas scaled n * inject_Z (n - 1))) / 2.

Definition coord (canvas scaled n k : Z) : Z :=
  Qtrunc (offset canvas scaled n
          + inject_Z k * (inject_Z scaled + gap canvas scaled n)).

End ClosedForms.

(** ** Valid inputs *)

(** Positive canvas and positive cell aspect. *)
Definition valid_config (g : globals) : Prop :=
  0 < OUTPUT_WIDTH g ∧ 0 < OUTPUT_HEIGHT g ∧
  0 < (base_video g).1 ∧ 0 < (base_video g).2.


(** A configuration with a cabinet overlay of [vw] x [vh] pixels on a canvas
    of [w] x [h] pixels; every other global keeps its default. *)
Definition cabinet (mode : string) (w h vw vh : Z) : globals := {|
  OUTPUT_WIDTH := w;
  OUTPUT_HEIGHT := h;
  MAX_GRID_SIZE := MAX_GRID_SIZE defaults;
  USE_CABINET := true;
  SPACING_MODE := mode;
  CABINET_PNG_WIDTH := vw;
  CABINET_PNG_HEIGHT := vh;
  SLIDE_DURATION := SLIDE_DURATION defaults
|}.

(** The configuration [g] with [SLIDE_DURATION] bound to [D]. *)
Definition with_slide_duration (D : Q) (g : globals) : globals := {|
  OUTPUT_WIDTH := OUTPUT_WIDTH g;
  OUTPUT_HEIGHT := OUTPUT_HEIGHT g;
  MAX_GRID_SIZE := MAX_GRID_SIZE g;
  USE_CABINET := USE_CABINET g;
  SPACING_MODE := SPACING_MODE g;
  CABINET_PNG_WIDTH := CABINET_PNG_WIDTH g;
  CABINET_PNG_HEIGHT := CABINET_PNG_HEIGHT g;
  SLIDE_DURATION := Some D
|}.

(** ** Gaps of a layout, in whole pixels *)

(** From the left (top) edge of the canvas to cell 0. *)
Definition edge_gap_x (pos : positions_t) : option Z := fst <$> pos !! 0.
Definition edge_gap_y (pos : positions_t) : option Z := snd <$> pos !! 0.

(** From the right side of cell [i] to the left side of cell [i + 1], its
    neighbour in the row when [(i + 1) mod cols ≠ 0]. *)
Definition inter_gap_x (sw : Z) (pos : positions_t) (i : Z) : option Z :=
  p ← pos !! i; q ← pos !! (i + 1); Some (q.1 - (p.1 + sw)).

(** From the bottom of cell [i] to the top of cell [i + cols], the cell
    below it. *)
Definition inter_gap_y (sh cols : Z) (pos : positions_t) (i : Z)
    : option Z :=
  p ← pos !! i; q ← pos !! (i + cols); Some (q.2 - (p.2 + sh)).

(** ** Checks by evaluation *)

Section Checks.
Context {F : Type} `{PyFloat F}.

(** The layout is computed, the scaled cell is neither negative nor larger
    than the canvas, and each of the [rows * cols] cells lies within the
    canvas. *)
Definition within_canvas_b (g : globals) (rows cols : Z) : bool :=
  match calculate_grid_layout (F:=F) g rows cols with
  | Ok (sw, sh, pos) =>
      (0 <=? sw) && (sw <=? OUTPUT_WIDTH g)
      && (0 <=? sh) && (sh <=? OUTPUT_HEIGHT g)
      && forallb (λ i,
           match pos !! i with
           | Some (x, y) =>
               (0 <=? x) && (x + sw <=? OUTPUT_WIDTH g)
               && (0 <=? y) && (y + sh <=? OUTPUT_HEIGHT g)
           | None => false
           end) (range (rows * cols))
  | Raise _ => false
  end.

(** The layout of a 1x1 grid is the single cell, centered. *)
Definition centered_b (g : globals) : bool :=
  match calculate_grid_layout (F:=F) g 1 1 with
  | Ok (sw, sh, pos) =>
      bool_decide
        (pos = {[0 := ((OUTPUT_WIDTH g - sw) / 2,
                       (OUTPUT_HEIGHT g - sh) / 2)]})
  | Raise _ => false
  end.
End Checks.

(** The configurations the prompts of [get_user_config] lead to with the
    default cabinet: a spacing mode, 1080p or 4K, cabinet overlay or raw
    clips. *)
Definition prompted_configs : list globals :=
  mode ← ["even"; "minimal"; "none"]%string;
  '(w, h) ← [(1920, 1080); (3840, 2160)];
  use_cabinet ← [true; false];
  [{| OUTPUT_WIDTH := w;
      OUTPUT_HEIGHT := h;
      MAX_GRID_SIZE := MAX_GRID_SIZE defaults;
      USE_CABINET := use_cabinet;
      SPACING_MODE := mode;
      CABINET_PNG_WIDTH := CABINET_PNG_WIDTH defaults;
      CABINET_PNG_HEIGHT := CABINET_PNG_HEIGHT defaults;
      SLIDE_DURATION := SLIDE_DURATION defaults |}].

(** ** Errors of arithmetic *)

Definition arith_error (e : exn) : Prop :=
  e = ZeroDivisionError ∨ e = OverflowError ∨ e = ValueError.

(** [m] returns, or raises an exception satisfying [E]. *)
Definition raises_only {A : Type} (E : exn -> Prop) (m : result A) : Prop :=
  match m with
  | Ok _ => True
  | Raise e => E e
  end.

(** ** Overlays *)

(** The static overlay of cell [i] at its position in [pos]. *)
Definition static_at (pos : positions_t) (i : Z) : overlay :=
  let '(x, y) := default (0, 0) (pos !! i) in Static x y.

(** Where cell [i], whose final position is [end_], starts its slide: off
    the canvas to the right or below when it is new, at its previous
    position otherwise. *)
Definition start_point (g : globals) (slide_from : option string)
    (prev_num_videos : Z) (prev_positions : positions_t) (i : Z)
    (end_ : Z * Z) : Z * Z :=
  if (prev_num_videos <=? i)%Z then
    if bool_decide (slide_from = Some "right"%string)
    then (OUTPUT_WIDTH g, end_.2)
    else (end_.1, OUTPUT_HEIGHT g)
  else default end_ (prev_positions !! i).

(** The animated overlay of cell [i]. *)
Definition sliding_to (g : globals) (D : Q) (slide_from : option string)
    (prev_num_videos : Z) (pos prev_positions : positions_t) (i : Z)
    : overlay :=
  let end_ := default (0, 0) (pos !! i) in
  let start_ :=
    start_point g slide_from prev_num_videos prev_positions i end_ in
  Animated (slide_expr D start_.1 end_.1) (slide_expr D start_.2 end_.2).

(** The test that selects the static overlay:
    [slide_from is None or not (prev_rows and prev_cols)]. *)
Definition static_call (slide_from : option string)
    (prev_rows prev_cols : option Z) : bool :=
  bool_decide (slide_from = None) || negb (truthy prev_rows && truthy prev_cols).

(** The input chosen for each cell: [i % len(grid_videos)]. *)
Definition chosen_inputs (grid_videos : list string) (n : Z) : list Z :=
  (λ i, i mod Z.of_nat (length grid_videos)) <$> range n.

(** A position with both coordinates in lowest terms. *)
Definition reduced (p : option (Q * Q)) : option (Q * Q) :=
  (λ '(x, y), (Qred x, Qred y)) <$> p.

(** ** The smoothstep curve *)

(** [3u² − 2u³] *)
Definition smoothstep_value (u : Q) : Q := 3 * u ^ 2 - 2 * u ^ 3.

(** The eased coordinate between [start_] and [end_] at time [t] of a slide
    that lasts [D]. *)
Definition slide_value (D : Q) (start_ end_ : Z) (t : Q) : Q :=
  inject_Z start_
  + (inject_Z end_ - inject_Z start_) * smoothstep_value (t / D).

(** ** Coordinates and margins of a layout *)

(** The coordinate the loop of [calculate_grid_layout] computes for cell
    number [k] of an axis: [int(offset + k * (scaled + gap))]. *)
Definition cell_coord {F : Type} `{PyFloat F} (offset gap : pynum F)
    (scaled k : Z) : result Z :=
  (int(val offset + lit k * (lit scaled + val gap)))%py.

(** From the right side of the last cell to the right edge of the canvas,
    and from its bottom to the bottom edge. *)
Definition far_gap_x (g : globals) (sw n : Z) (pos : positions_t)
    : option Z :=
  p ← pos !! (n - 1); Some (OUTPUT_WIDTH g - (p.1 + sw)).
Definition far_gap_y (g : globals) (sh n : Z) (pos : positions_t)
    : option Z :=
  p ← pos !! (n - 1); Some (OUTPUT_HEIGHT g - (p.2 + sh)).


(** ** Numerals for the examples of the prompts *)

(** An unsigned decimal numeral; it stands in for [int] and [float] of a
    string in the examples. *)
Definition digit (c : Ascii.ascii) : option Z :=
  let n := Z.of_nat (Ascii.nat_of_ascii c) - 48 in
  if (0 <=? n) && (n <=? 9) then Some n else None.

Fixpoint numeral_from (acc : Z) (s : string) : option Z :=
  match s with
  | EmptyString => Some acc
  | String c s' => d ← digit c; numeral_from (10 * acc + d) s'
  end.

Definition numeral (s : string) : option Z :=
  if String.eqb s "" then None else numeral_from 0 s.

(** ** What the prompts establish *)

Section PromptInvariants.
Context {F : Type} `{PyFloat F}.

(** The clip duration is the default or a float greater than zero. *)
Definition positive_duration (d : pynum F) : Prop :=
  d = PyInt 10 ∨ ∃ x, d = PyFlt x ∧ py_lt (PyInt 0) (PyFlt x) = Ok true.

(** The crop margins are those of [s] or not negative. *)
Definition crops_kept_or_nonneg (s s' : clip_settings F) : Prop :=
  (CROP_TOP s', CROP_RIGHT s', CROP_BOTTOM s', CROP_LEFT s')
  = (CROP_TOP s, CROP_RIGHT s, CROP_BOTTOM s, CROP_LEFT s)
  ∨ (0 <= CROP_TOP s' ∧ 0 <= CROP_RIGHT s' ∧
     0 <= CROP_BOTTOM s' ∧ 0 <= CROP_LEFT s').
End PromptInvariants.

(** ** More checks by evaluation *)

Section MoreChecks.
Context {F : Type} `{PyFloat F}.

(** The far margin of the grid is its near margin, or one pixel more, on
    both axes. *)
Definition margins_b (g : globals) (rows cols : Z) : bool :=
  match calculate_grid_layout (F:=F) g rows cols with
  | Ok (sw, sh, pos) =>
      match edge_gap_x pos, far_gap_x g sw (rows * cols) pos,
            edge_gap_y pos, far_gap_y g sh (rows * cols) pos with
      | Some l, Some r, Some t, Some b =>
          (l <=? r) && (r <=? l + 1) && (t <=? b) && (b <=? t + 1)
      | _, _, _, _ => false
      end
  | Raise _ => false
  end.

(** Neighbouring cells do not overlap; they touch in the none mode and are
    10 pixels apart in the minimal mode. *)
Definition pitch_b (g : globals) (rows cols : Z) : bool :=
  match calculate_grid_layout (F:=F) g rows cols with
  | Ok (sw, sh, pos) =>
      let ok (d : option Z) : bool :=
        match d with
        | Some d =>
            (0 <=? d)
            && (if mode_none g then d =? 0 else true)
            && (if mode_minimal g then d =? 10 else true)
        | None => false
        end in
      forallb (λ i,
        if (i + 1) mod cols =? 0 then true else ok (inter_gap_x sw pos i))
        (range (rows * cols - 1))
      && forallb (λ i, ok (inter_gap_y sh cols pos i))
           (range (rows * cols - cols))
  | Raise _ => false
  end.

(** The scaled cell has the aspect ratio of the base video, up to the
    truncation of each side. *)
Definition aspect_b (g : globals) (rows cols : Z) : bool :=
  match calculate_grid_layout (F:=F) g rows cols with
  | Ok (sw, sh, _) =>
      let '(vw, vh) := base_video g in
      (- vh <? sw * vh - sh * vw) && (sw * vh - sh * vw <? vw)
  | Raise _ => false
  end.
(** The cells of the grid with one more row and column are no larger. *)
Definition shrinks_b (g : globals) (n : Z) : bool :=
  match calculate_grid_layout (F:=F) g n n,
        calculate_grid_layout (F:=F) g (n + 1) (n + 1) with
  | Ok (sw, sh, _), Ok (sw', sh', _) => (sw' <=? sw) && (sh' <=? sh)
  | _, _ => false
  end.
(** Every margin of the grid, left, right, top and bottom, is at least
    [m] pixels. *)
Definition margins_at_least_b (m : Z) (g : globals) (rows cols : Z) : bool :=
  match calculate_grid_layout (F:=F) g rows cols with
  | Ok (sw, sh, pos) =>
      match edge_gap_x pos, far_gap_x g sw (rows * cols) pos,
            edge_gap_y pos, far_gap_y g sh (rows * cols) pos with
      | Some l, Some r, Some t, Some b =>
          (m <=? l) && (m <=? r) && (m <=? t) && (m <=? b)
      | _, _, _, _ => false
      end
  | Raise _ => false
  end.
End MoreChecks.

(** * Properties *)

(** ** Truncation of rationals *)

Lemma Qtrunc_nonneg (x : Q) : (0 <= x)%Q -> Qtrunc x = Qfloor x.
Proof.
  destruct x as [n d]; unfold Qtrunc, Qfloor, Qle; simpl; intros Hx.
  apply Z.quot_div_nonneg; lia.
Qed.

Lemma Qtrunc_nonpos (x : Q) : (x <= 0)%Q -> Qtrunc x = Qceiling x.
Proof.
  destruct x as [n d]; unfold Qtrunc, Qceiling, Qfloor, Qle; simpl; intros Hx.
  replace n with (- - n) at 1 by lia.
  rewrite Z.quot_opp_l by lia. f_equal.
  apply Z.quot_div_nonneg; lia.
Qed.

Lemma Qtrunc_comp (x y : Q) : (x == y)%Q -> Qtrunc x = Qtrunc y.
Proof.
  intros Hxy. destruct (Qlt_le_dec x 0) as [Hneg | Hpos].
  - rewrite !Qtrunc_nonpos by lra. unfold Qceiling. now rewrite Hxy.
  - rewrite !Qtrunc_nonneg by lra. now rewrite Hxy.
Qed.



Lemma Qtrunc_inject_Z (n : Z) : Qtrunc (inject_Z n) = n.
Proof. unfold Qtrunc; simpl. apply Z.quot_1_r. Qed.

Lemma Qlt_bool_iff (x y : Q) : Qlt_bool x y = true <-> (x < y)%Q.
Proof. unfold Qlt_bool, Qlt. apply Z.ltb_lt. Qed.

Lemma Qlt_bool_false_iff (x y : Q) : Qlt_bool x y = false <-> (y <= x)%Q.
Proof. unfold Qlt_bool, Qle. rewrite Z.ltb_ge. reflexivity. Qed.

(** ** Reasoning about computations that may raise *)

Lemma returns_bind {A B : Type} (m : result A) (k : A -> result B)
    (P : B -> Prop) :
  returns m (λ a, returns (k a) P) -> returns (m ≫= k) P.
Proof. destruct m; simpl; auto. Qed.

Lemma returns_mono {A : Type} (m : result A) (P P' : A -> Prop) :
  returns m P -> (∀ a, P a -> P' a) -> returns m P'.
Proof. destruct m; simpl; auto. Qed.

Lemma returns_Ok {A : Type} (m : result A) (P : A -> Prop) :
  returns m P <-> ∃ a, m = Ok a ∧ P a.
Proof.
  destruct m; simpl; split.
  - eauto.
  - intros (? & [= <-] & ?); done.
  - done.
  - intros (? & [=] & ?).
Qed.

(** ** Arithmetic of the exact instance *)

Lemma denotes_lit (n : Z) : denotes (lit n) (inject_Z n).
Proof. unfold denotes, lit; simpl. reflexivity. Qed.

Lemma denotes_val (a : pynum Q) (q : Q) : (qv a == q)%Q -> denotes (val a) q.
Proof. done. Qed.

Lemma denotes_arith (fi : Z -> Z -> Z) (ff : Q -> Q -> Q)
    (ma mb : result (pynum Q)) (x y : Q) :
  (∀ m n, inject_Z (fi m n) == ff (inject_Z m) (inject_Z n))%Q ->
  Proper (Qeq ==> Qeq ==> Qeq) ff ->
  denotes ma x -> denotes mb y -> denotes (binop (arith fi ff) ma mb) (ff x y).
Proof.
  intros Hfi Hff. unfold denotes, binop.
  destruct ma as [a|]; [|done]. destruct mb as [b|]; [|done]. simpl.
  intros Ha Hb.
  destruct a, b; simpl in *; rewrite ?Hfi; now apply Hff.
Qed.

Lemma denotes_add ma mb x y :
  denotes ma x -> denotes mb y -> denotes (binop py_add ma mb) (x + y).
Proof.
  apply (denotes_arith Z.add Qplus); [|apply _].
  intros m n. now rewrite inject_Z_plus.
Qed.

Lemma denotes_sub ma mb x y :
  denotes ma x -> denotes mb y -> denotes (binop py_sub ma mb) (x - y).
Proof.
  apply (denotes_arith Z.sub Qminus); [|apply _].
  intros m n. unfold Z.sub, Qminus.
  now rewrite inject_Z_plus, inject_Z_opp.
Qed.

Lemma denotes_mul ma mb x y :
  denotes ma x -> denotes mb y -> denotes (binop py_mul ma mb) (x * y).
Proof.
  apply (denotes_arith Z.mul Qmult); [|apply _].
  intros m n. now rewrite inject_Z_mult.
Qed.

Lemma is_zero_exact (a : pynum Q) : is_zero a = false <-> ¬ (qv a == 0)%Q.
Proof.
  destruct a as [n|[n d]]; simpl; unfold Qeq; simpl;
    rewrite Z.eqb_neq; lia.
Qed.

Lemma denotes_truediv ma mb x y :
  denotes ma x -> denotes mb y -> ¬ (y == 0)%Q ->
  denotes (binop py_truediv ma mb) (x / y).
Proof.
  unfold denotes, binop.
  destruct ma as [a|]; [|done]. destruct mb as [b|]; [|done]. simpl.
  intros Ha Hb Hy. unfold py_truediv.
  assert (is_zero b = false) as -> by (apply is_zero_exact; now rewrite Hb).
  destruct a, b; simpl in *; now rewrite Ha, Hb.
Qed.

Lemma denotes_min ma mb x y :
  denotes ma x -> denotes mb y -> denotes (binop py_min ma mb) (Qmin x y).
Proof.
  unfold denotes, binop.
  destruct ma as [a|]; [|done]. destruct mb as [b|]; [|done].
  intros Ha Hb. simpl in Ha, Hb.
  change (returns (py_min a b) (λ r, qv r == Qmin x y)%Q).
  assert (Qmin x y == Qmin (qv a) (qv b))%Q as Hmin by now rewrite Ha, Hb.
  assert (∃ c, py_lt b a = Ok c ∧ (c = true <-> (qv b < qv a)%Q))
    as (c & Hlt & Hc).
  { destruct a as [m|p], b as [n|q]; simpl; eexists; (split; [reflexivity|]);
      rewrite ?Qlt_bool_iff; try reflexivity.
    rewrite Z.ltb_lt, <- Zlt_Qlt. reflexivity. }
  unfold py_min. rewrite Hlt. simpl. rewrite Hmin. destruct c.
  - rewrite Q.min_r; [reflexivity|]. apply Qlt_le_weak, Hc. reflexivity.
  - rewrite Q.min_l; [reflexivity|].
    apply Qnot_lt_le. intros Hba. apply Hc in Hba. discriminate.
Qed.

Lemma returns_int (ma : result (pynum Q)) (x : Q) (P : Z -> Prop) :
  denotes ma x -> P (Qtrunc x) -> returns (ma ≫= py_int) P.
Proof.
  unfold denotes. destruct ma as [a|]; [|done]. simpl. intros Ha HP.
  destruct a as [n|q]; simpl in *.
  - rewrite <- (Qtrunc_comp _ _ Ha), Qtrunc_inject_Z in HP. exact HP.
  - now rewrite (Qtrunc_comp _ _ Ha).
Qed.

Lemma returns_denotes (ma : result (pynum Q)) (x : Q) {B : Type}
    (k : pynum Q -> result B) (P : B -> Prop) :
  denotes ma x -> (∀ a, (qv a == x)%Q -> returns (k a) P) ->
  returns (ma ≫= k) P.
Proof.
  intros Hm Hk. apply returns_bind. eapply returns_mono; [exact Hm|].
  exact Hk.
Qed.

(** Value of an arithmetic expression, operand by operand; the side
    conditions of divisions are left as goals. *)
Ltac denote :=
  repeat first
    [ apply denotes_lit
    | eapply denotes_val; first [eassumption | reflexivity]
    | eapply denotes_add
    | eapply denotes_sub
    | eapply denotes_mul
    | eapply denotes_min
    | eapply denotes_truediv ].

(** Step over [x ← e; ...] for a number [x], and over [x ← int(e); ...]. *)
Ltac bind_num a Ha :=
  eapply returns_denotes; [denote | intros a Ha].
Ltac bind_int :=
  apply returns_bind; eapply returns_int; [denote | cbv beta].

Lemma inject_Z_nonzero (n : Z) : n ≠ 0 -> ¬ (inject_Z n == 0)%Q.
Proof. unfold Qeq; simpl. lia. Qed.

Section ExactLayout.
Variable g : globals.

Lemma scaled_and_gaps_exact (rows cols : Z) :
  0 < rows -> 0 < cols -> (base_video g).1 ≠ 0 -> (base_video g).2 ≠ 0 ->
  returns (scaled_and_gaps (F:=Q) g rows cols) (λ '(sw, sh, hg, vg),
    sw = Qtrunc (inject_Z (base_video g).1 * scale_factor g rows cols) ∧
    sh = Qtrunc (inject_Z (base_video g).2 * scale_factor g rows cols) ∧
    (qv hg == gap g (OUTPUT_WIDTH g) sw cols)%Q ∧
    (qv vg == gap g (OUTPUT_HEIGHT g) sh rows)%Q).
Proof.
  intros Hr Hc Hw Hh.
  unfold scaled_and_gaps, scale_factor, gap, available, headroom,
    mode_minimal, mode_none.
  destruct (base_video g) as [vw vh]; simpl in Hw, Hh; simpl fst; simpl snd.
  destruct (String.eqb (SPACING_MODE g) "none"); simpl negb; simpl andb;
    simpl orb; [|destruct (String.eqb (SPACING_MODE g) "minimal")].
  - bind_num aw Haw; [apply inject_Z_nonzero; lia|].
    bind_num ah Hah; [apply inject_Z_nonzero; lia|].
    bind_num fw Hfw; [now apply inject_Z_nonzero|].
    bind_num fh Hfh; [now apply inject_Z_nonzero|].
    bind_num f Hf. bind_int. bind_int. simpl.
    repeat split; try reflexivity; apply Qtrunc_comp; ring.
  - bind_num fw Hfw;
      [apply inject_Z_nonzero; lia | now apply inject_Z_nonzero|].
    bind_num fh Hfh;
      [apply inject_Z_nonzero; lia | now apply inject_Z_nonzero|].
    bind_num f Hf. bind_int. bind_int. simpl.
    repeat split; try reflexivity; apply Qtrunc_comp; ring.
  - bind_num aw Haw; [apply inject_Z_nonzero; lia|].
    bind_num ah Hah; [apply inject_Z_nonzero; lia|].
    bind_num fw Hfw; [now apply inject_Z_nonzero|].
    bind_num fh Hfh; [now apply inject_Z_nonzero|].
    bind_num f Hf. bind_int. bind_int.
    bind_num hg Hhg; [apply inject_Z_nonzero; lia|].
    bind_num vg Hvg; [apply inject_Z_nonzero; lia|].
    simpl. repeat split; try reflexivity; try assumption.
Qed.

Lemma place_exact (cols sw sh : Z) (hg vg ox oy : pynum Q)
    (qhg qvg qox qoy : Q) (acc : positions_t) (i : Z) :
  cols ≠ 0 ->
  (qv hg == qhg)%Q -> (qv vg == qvg)%Q ->
  (qv ox == qox)%Q -> (qv oy == qoy)%Q ->
  place cols sw sh hg vg ox oy acc i =
    Ok (<[i := (Qtrunc (qox + inject_Z (i mod cols) * (inject_Z sw + qhg)),
                Qtrunc (qoy + inject_Z (i / cols) * (inject_Z sh + qvg)))]>
          acc).
Proof.
  intros Hc Hhg Hvg Hox Hoy.
  match goal with |- _ = Ok ?m =>
    assert (returns (place cols sw sh hg vg ox oy acc i) (λ m', m' = m))
      as Hret
  end.
  { unfold place, py_floordiv, py_mod.
    apply Z.eqb_neq in Hc. rewrite Hc.
    do 2 (apply returns_bind; unfold returns at 1; cbv beta iota).
    bind_int. bind_int. reflexivity. }
  apply returns_Ok in Hret as (m & -> & ->). reflexivity.
Qed.

Lemma for_each_insert (f : Z -> Z * Z) (body : positions_t -> Z ->
    result positions_t) (xs : list Z) (acc : positions_t) :
  (∀ m i, body m i = Ok (<[i := f i]> m)) ->
  returns (for_each xs body acc) (λ m,
    ∀ i, m !! i = if decide (i ∈ xs) then Some (f i) else acc !! i).
Proof.
  intros Hbody. revert acc.
  induction xs as [|x xs IH]; intros acc.
  - intros i. case_decide as Hin; [|done]. now apply elem_of_nil in Hin.
  - cbn [for_each]. rewrite Hbody.
    apply returns_bind. unfold returns at 1. cbv beta iota.
    eapply returns_mono; [apply IH|]. cbv beta. intros m Hm i.
    rewrite Hm.
    destruct (decide (i = x)) as [->|Hne].
    + rewrite lookup_insert_eq.
      rewrite (decide_True (P := x ∈ x :: xs)) by (apply elem_of_cons; tauto).
      now case_decide.
    + rewrite lookup_insert_ne by done.
      destruct (decide (i ∈ xs)) as [Hin|Hin].
      * rewrite decide_True; [done|]. rewrite elem_of_cons. tauto.
      * rewrite decide_False; [done|]. rewrite elem_of_cons. tauto.
Qed.

(** The layout under exact arithmetic, in closed form. *)
Lemma layout_exact (rows cols : Z) :
  0 < rows -> 0 < cols -> (base_video g).1 ≠ 0 -> (base_video g).2 ≠ 0 ->
  returns (calculate_grid_layout (F:=Q) g rows cols) (λ '(sw, sh, pos),
    sw = Qtrunc (inject_Z (base_video g).1 * scale_factor g rows cols) ∧
    sh = Qtrunc (inject_Z (base_video g).2 * scale_factor g rows cols) ∧
    ∀ i, pos !! i =
      if decide (0 <= i < rows * cols) then
        Some (coord g (OUTPUT_WIDTH g) sw cols (i mod cols),
              coord g (OUTPUT_HEIGHT g) sh rows (i / cols))
      else None).
Proof.
  intros Hr Hc Hw Hh. unfold calculate_grid_layout.
  apply returns_bind.
  eapply returns_mono; [now apply scaled_and_gaps_exact|].
  intros [[[sw sh] hg] vg] (Hsw & Hsh & Hhg & Hvg).
  bind_num tw Htw. bind_num th Hth.
  bind_num ox Hox; [done|]. bind_num oy Hoy; [done|].
  apply returns_bind. eapply returns_mono.
  { apply for_each_insert. intros m i.
    apply place_exact; [lia | exact Hhg | exact Hvg | exact Hox | exact Hoy]. }
  simpl. intros pos Hpos. repeat split; [done..|].
  intros i. rewrite Hpos. unfold range.
  destruct (decide (0 <= i < rows * cols)) as [Hi|Hi].
  - rewrite decide_True by (apply elem_of_seqZ; lia). reflexivity.
  - rewrite decide_False by (rewrite elem_of_seqZ; lia). apply lookup_empty.
Qed.
End ExactLayout.

(** ** Geometry of one axis under exact arithmetic *)

Section Axis.
Variable g : globals.




















End Axis.

(** ** The layout on valid inputs *)

Section LayoutBounds.
Variable g : globals.
Variables rows cols : Z.
Hypothesis Hvalid : valid_config g.
Hypothesis Hrows : 1 <= rows.
Hypothesis Hcols : 1 <= cols.




End LayoutBounds.

(** * The layout claims *)

(** C3. Shape 2x2 on a 1920x1080 canvas with a 420x315 cell and no spacing:
    cells of 720x540 at (240, 0), (960, 0), (240, 540), (960, 540) for the
    indices 0..3 in row-major order, under doubles and under exact
    arithmetic alike. *)
Theorem layout_2x2_none_scenario :
  let expected : result (Z * Z * positions_t) :=
    Ok (720, 540,
        <[0 := (240, 0)]> (<[1 := (960, 0)]>
          (<[2 := (240, 540)]> (<[3 := (960, 540)]> ∅)))) in
  calculate_grid_layout (F:=float) (cabinet "none" 1920 1080 420 315) 2 2
    = expected ∧
  calculate_grid_layout (F:=Q) (cabinet "none" 1920 1080 420 315) 2 2
    = expected.
Proof. split; vm_compute; reflexivity. Qed.

(** Doubles and exact arithmetic need not agree to the pixel: with the
    default cabinet on a 1080p canvas and no spacing, the cell height of a
    5x5 grid is 216 exactly, and a double just below it, truncated to 215. *)
Example doubles_round_below_exact :
  ∃ pos pos',
    calculate_grid_layout (F:=float) (cabinet "none" 1920 1080 659 741) 5 5
      = Ok (192, 215, pos) ∧
    calculate_grid_layout (F:=Q) (cabinet "none" 1920 1080 659 741) 5 5
      = Ok (192, 216, pos').
Proof. eexists _, _. split; vm_compute; reflexivity. Qed.

(** Beyond [2^53] a canvas size need not be a double: on a square canvas of
    [2^53 + 3] pixels a 1x1 cell of aspect 1x1 gets the size [2^53 + 4] under
    doubles, and [2^53 + 3] exactly. *)
Example doubles_round_above_huge_canvas :
  let W := 2 ^ 53 + 3 in
  calculate_grid_layout (F:=float) (cabinet "none" W W 1 1) 1 1
    = Ok (W + 1, W + 1, {[0 := (0, 0)]}) ∧
  calculate_grid_layout (F:=Q) (cabinet "none" W W 1 1) 1 1
    = Ok (W, W, {[0 := (0, 0)]}).
Proof. split; vm_compute; reflexivity. Qed.







(** Under doubles the same bounds hold, by evaluation, for every
    configuration the prompts lead to and every grid up to 10x10. *)
Example prompted_layouts_within_canvas_doubles :
  forallb (λ g, forallb (λ n, within_canvas_b (F:=float) g n n) (seqZ 1 10))
    prompted_configs = true.
Proof. vm_compute. reflexivity. Qed.



(** Under doubles the same holds, by evaluation, for every configuration
    the prompts lead to. *)
Example prompted_single_cell_centered_doubles :
  forallb (centered_b (F:=float)) prompted_configs = true.
Proof. vm_compute. reflexivity. Qed.





(** * Slide expressions *)

Lemma Qeq_bool_false (x y : Q) : ¬ (x == y)%Q -> Qeq_bool x y = false.
Proof.
  intros Hne. destruct (Qeq_bool x y) eqn:Heq; [|reflexivity].
  now apply Qeq_bool_eq in Heq.
Qed.

(** From [SLIDE_DURATION] on, a coordinate is the final one, exactly; the
    eased branch and its division are not evaluated. *)
Lemma eval_slide_after (D : Q) (s e : Z) (t : Q) :
  (D <= t)%Q -> eval t (slide_expr D s e) = Some (inject_Z e).
Proof.
  intros Ht. unfold slide_expr. cbn [eval mbind option_bind].
  apply Qlt_bool_false_iff in Ht. rewrite Ht. reflexivity.
Qed.

(** Before [SLIDE_DURATION], a coordinate is the eased one. *)
Lemma eval_slide_during (D : Q) (s e : Z) (t : Q) :
  (t < D)%Q -> ¬ (D == 0)%Q ->
  eval t (slide_expr D s e) = Some (slide_value D s e t).
Proof.
  intros Ht HD. unfold slide_expr, smoothstep, t_norm.
  cbn [eval mbind option_bind].
  apply Qlt_bool_iff in Ht. rewrite Ht.
  change (Qeq_bool 1 0) with false. cbv iota.
  rewrite (Qeq_bool_false D 0 HD). reflexivity.
Qed.

#[export] Instance smoothstep_value_proper :
  Proper (Qeq ==> Qeq) smoothstep_value.
Proof. intros u v Huv. unfold smoothstep_value. now rewrite Huv. Qed.

Lemma smoothstep_value_0 : (smoothstep_value 0 == 0)%Q.
Proof. reflexivity. Qed.

Lemma smoothstep_value_1 : (smoothstep_value 1 == 1)%Q.
Proof. reflexivity. Qed.

(** The smoothstep curve does not decrease on [[0, 1]]. *)
Lemma smoothstep_value_mono (u v : Q) :
  (0 <= u)%Q -> (u <= v)%Q -> (v <= 1)%Q ->
  (smoothstep_value u <= smoothstep_value v)%Q.
Proof.
  intros Hu Huv Hv. unfold smoothstep_value. simpl Qpower.
  assert (0 <= (v - u) * (u * (3 - 2 * u - v) + v * (3 - 2 * v - u)))%Q
    as Hprod.
  { apply Qmult_le_0_compat; [lra|].
    assert (0 <= u * (3 - 2 * u - v))%Q by (apply Qmult_le_0_compat; lra).
    assert (0 <= v * (3 - 2 * v - u))%Q by (apply Qmult_le_0_compat; lra).
    lra. }
  assert ((3 * (v * v) - 2 * (v * v * v)) - (3 * (u * u) - 2 * (u * u * u))
          == (v - u) * (u * (3 - 2 * u - v) + v * (3 - 2 * v - u)))%Q
    as Heq by ring.
  lra.
Qed.

(** Start and end of a slide: the eased coordinate at [t = 0] is the start;
    it stays between start and end over the whole slide. *)
Lemma slide_value_0 (D : Q) (s e : Z) :
  ¬ (D == 0)%Q -> (slide_value D s e 0 == inject_Z s)%Q.
Proof.
  intros HD. unfold slide_value.
  assert (0 / D == 0)%Q as -> by (field; exact HD).
  rewrite smoothstep_value_0. ring.
Qed.

(** * Control flow, for any float arithmetic *)

Lemma bind_Ok_inv {A B : Type} (m : result A) (k : A -> result B) (b : B) :
  m ≫= k = Ok b -> ∃ a, m = Ok a ∧ k a = Ok b.
Proof. destruct m as [a|e]; simpl; [eauto|discriminate]. Qed.

Lemma raises_only_bind {A B : Type} (E : exn -> Prop) (m : result A)
    (k : A -> result B) :
  raises_only E m -> (∀ a, m = Ok a -> raises_only E (k a)) ->
  raises_only E (m ≫= k).
Proof. destruct m as [a|e]; simpl; auto. Qed.

Lemma raises_only_mono {A : Type} (E E' : exn -> Prop) (m : result A) :
  raises_only E m -> (∀ e, E e -> E' e) -> raises_only E' m.
Proof. destruct m; simpl; auto. Qed.

Lemma raises_only_for_each {A S : Type} (E : exn -> Prop) (xs : list A)
    (body : S -> A -> result S) (acc : S) :
  (∀ acc' x, x ∈ xs -> raises_only E (body acc' x)) ->
  raises_only E (for_each xs body acc).
Proof.
  revert acc. induction xs as [|x xs IH]; intros acc Hbody; [done|].
  cbn [for_each]. apply raises_only_bind.
  - apply Hbody, elem_of_cons. tauto.
  - intros acc' _. apply IH. intros acc'' y Hy.
    apply Hbody, elem_of_cons. tauto.
Qed.

(** A loop that appends one computed item per element. *)
Lemma for_each_collect_Ok {A B : Type} (f : A -> result B) (h : A -> B)
    (xs : list A) (acc : list B) :
  (∀ x, x ∈ xs -> f x = Ok (h x)) ->
  for_each xs (λ acc x, o ← f x; Ok (acc ++ [o])) acc
  = Ok (acc ++ (h <$> xs)).
Proof.
  revert acc. induction xs as [|x xs IH]; intros acc Hf.
  - simpl. now rewrite app_nil_r.
  - cbn [for_each]. rewrite (Hf x) by (apply elem_of_cons; tauto).
    cbn [mbind result_bind]. rewrite IH.
    + now rewrite <- app_assoc.
    + intros y Hy. apply Hf, elem_of_cons. tauto.
Qed.

Lemma for_each_collect_Raise {A B : Type} (f : A -> result B) (e : exn)
    (x : A) (xs : list A) (acc : list B) :
  f x = Raise e ->
  for_each (x :: xs) (λ acc x, o ← f x; Ok (acc ++ [o])) acc = Raise e.
Proof. intros Hf. cbn [for_each]. now rewrite Hf. Qed.

Section AnyFloat.
Context {F : Type} `{PyFloat F}.
Variable g : globals.

Lemma raises_only_as_float (a : pynum F) :
  raises_only arith_error (as_float a).
Proof.
  destruct a as [n|x]; simpl; [|done]. unfold to_float.
  destruct (float_of_int n); simpl; unfold arith_error; auto.
Qed.

Lemma raises_only_floats {B : Type} (a b : pynum F)
    (k : F -> F -> result B) :
  (∀ x y, raises_only arith_error (k x y)) ->
  raises_only arith_error (x ← as_float a; y ← as_float b; k x y).
Proof.
  intros Hk.
  apply raises_only_bind; [apply raises_only_as_float|]. intros x _.
  apply raises_only_bind; [apply raises_only_as_float|]. intros y _.
  apply Hk.
Qed.

Lemma raises_only_arith fi ff (ma mb : result (pynum F)) :
  raises_only arith_error ma -> raises_only arith_error mb ->
  raises_only arith_error (binop (arith fi ff) ma mb).
Proof.
  intros Ha Hb. unfold binop.
  apply raises_only_bind; [exact Ha|]. intros a _.
  apply raises_only_bind; [exact Hb|]. intros b _.
  unfold arith.
  destruct a, b; first [exact I | apply raises_only_floats; intros; exact I].
Qed.

Lemma raises_only_truediv (ma mb : result (pynum F)) :
  raises_only arith_error ma -> raises_only arith_error mb ->
  raises_only arith_error (binop py_truediv ma mb).
Proof.
  intros Ha Hb. unfold binop.
  apply raises_only_bind; [exact Ha|]. intros a _.
  apply raises_only_bind; [exact Hb|]. intros b _.
  unfold py_truediv. destruct (is_zero b); [unfold arith_error; simpl; auto|].
  apply raises_only_floats. intros; exact I.
Qed.

Lemma raises_only_min (ma mb : result (pynum F)) :
  raises_only arith_error ma -> raises_only arith_error mb ->
  raises_only arith_error (binop py_min ma mb).
Proof.
  intros Ha Hb. unfold binop.
  apply raises_only_bind; [exact Ha|]. intros a _.
  apply raises_only_bind; [exact Hb|]. intros b _.
  unfold py_min. apply raises_only_bind; [|intros; exact I].
  unfold py_lt.
  destruct a, b; first [exact I | apply raises_only_floats; intros; exact I].
Qed.

Lemma raises_only_int (ma : result (pynum F)) :
  raises_only arith_error ma -> raises_only arith_error (ma ≫= py_int).
Proof.
  intros Ha. apply raises_only_bind; [exact Ha|].
  intros [n|x] _; [exact I|].
  unfold py_int. destruct (int_of_float x); [exact I|].
  unfold raises_only, arith_error. destruct (fis_nan x); auto.
Qed.

Lemma raises_only_lit (n : Z) : raises_only arith_error (lit (F:=F) n).
Proof. exact I. Qed.

Lemma raises_only_val (a : pynum F) : raises_only arith_error (val a).
Proof. exact I. Qed.
End AnyFloat.

(** Every operation of an arithmetic expression raises arithmetic errors
    only. *)
Ltac arith_only :=
  repeat first
    [ apply raises_only_lit
    | apply raises_only_val
    | apply raises_only_int
    | apply raises_only_min
    | apply raises_only_truediv
    | apply raises_only_arith ].

Section AnyFloatLayout.
Context {F : Type} `{PyFloat F}.
Variable g : globals.

Lemma raises_only_floordiv (a b : Z) :
  raises_only arith_error (py_floordiv a b).
Proof.
  unfold py_floordiv. destruct (b =? 0); [|exact I].
  unfold raises_only, arith_error. auto.
Qed.

Lemma raises_only_mod (a b : Z) : raises_only arith_error (py_mod a b).
Proof.
  unfold py_mod. destruct (b =? 0); [|exact I].
  unfold raises_only, arith_error. auto.
Qed.

Lemma raises_only_scaled_and_gaps (rows cols : Z) :
  raises_only arith_error (scaled_and_gaps (F:=F) g rows cols).
Proof.
  unfold scaled_and_gaps. destruct (base_video g) as [vw vh].
  destruct (String.eqb _ _); [|destruct (String.eqb _ _)];
    repeat (apply raises_only_bind; [arith_only | intros ? _]); exact I.
Qed.

Lemma raises_only_place cols sw sh (hg vg ox oy : pynum F) acc i :
  raises_only arith_error (place cols sw sh hg vg ox oy acc i).
Proof.
  unfold place.
  apply raises_only_bind; [apply raises_only_floordiv | intros ? _].
  apply raises_only_bind; [apply raises_only_mod | intros ? _].
  repeat (apply raises_only_bind; [arith_only | intros ? _]); exact I.
Qed.

(** The layout raises arithmetic errors only. *)
Lemma raises_only_layout (rows cols : Z) :
  raises_only arith_error (calculate_grid_layout (F:=F) g rows cols).
Proof.
  unfold calculate_grid_layout.
  apply raises_only_bind; [apply raises_only_scaled_and_gaps|].
  intros [[[sw sh] hg] vg] _.
  do 4 (apply raises_only_bind; [arith_only | intros ? _]).
  apply raises_only_bind; [|intros; exact I].
  apply raises_only_for_each. intros. apply raises_only_place.
Qed.

Lemma place_Ok_inv cols sw sh (hg vg ox oy : pynum F) acc i m :
  place cols sw sh hg vg ox oy acc i = Ok m -> ∃ p, m = <[i := p]> acc.
Proof.
  unfold place. intros Hp.
  repeat (apply bind_Ok_inv in Hp as (? & _ & Hp)).
  injection Hp as <-. eauto.
Qed.

Lemma for_each_place_keys cols sw sh (hg vg ox oy : pynum F) xs acc m :
  for_each xs (place cols sw sh hg vg ox oy) acc = Ok m ->
  ∀ i, is_Some (m !! i) ↔ i ∈ xs ∨ is_Some (acc !! i).
Proof.
  revert acc. induction xs as [|x xs IH]; intros acc Hm i.
  - injection Hm as <-. rewrite elem_of_nil. tauto.
  - cbn [for_each] in Hm. apply bind_Ok_inv in Hm as (acc' & Hp & Hm).
    apply place_Ok_inv in Hp as (p & ->).
    rewrite (IH _ Hm i), elem_of_cons.
    destruct (decide (i = x)) as [->|Hne].
    + rewrite lookup_insert_eq. split; [tauto|]. intros _. right. eauto.
    + rewrite lookup_insert_ne by done. tauto.
Qed.

(** [positions] is keyed exactly by [0 .. rows * cols - 1]. *)
Lemma layout_keys (rows cols sw sh : Z) (pos : positions_t) :
  calculate_grid_layout (F:=F) g rows cols = Ok (sw, sh, pos) ->
  ∀ i, is_Some (pos !! i) ↔ 0 <= i < rows * cols.
Proof.
  unfold calculate_grid_layout. intros Hl i.
  apply bind_Ok_inv in Hl as ([[[sw' sh'] hg] vg] & _ & Hl).
  do 4 (apply bind_Ok_inv in Hl as (? & _ & Hl)).
  apply bind_Ok_inv in Hl as (pos' & Hfor & Hl).
  injection Hl as <- <- <-.
  rewrite (for_each_place_keys _ _ _ _ _ _ _ _ _ _ Hfor i).
  unfold range. rewrite elem_of_seqZ, lookup_empty.
  split; [intros [?|[? [=]]]; lia | intros; left; lia].
Qed.
End AnyFloatLayout.

Section AnyFloatSegment.
Context {F : Type} `{PyFloat F}.
Variable g : globals.

Lemma getitem_Some (d : positions_t) (i : Z) :
  is_Some (d !! i) -> getitem d i = Ok (default (0, 0) (d !! i)).
Proof. intros [p Hp]. unfold getitem. now rewrite Hp. Qed.

Lemma overlay_cell_static (pos ppos : positions_t) pnum sf pr pc i :
  is_Some (pos !! i) -> static_call sf pr pc = true ->
  overlay_cell g pos ppos pnum sf pr pc i = Ok (static_at pos i).
Proof.
  intros Hp Hs. unfold overlay_cell, static_at.
  rewrite (getitem_Some _ _ Hp). cbn [mbind result_bind].
  destruct (default (0, 0) (pos !! i)) as [ex ey].
  unfold static_call in Hs. rewrite Hs. reflexivity.
Qed.

Lemma overlay_cell_animated (pos ppos : positions_t) pnum sf pr pc i :
  is_Some (pos !! i) -> static_call sf pr pc = false ->
  (i < pnum -> is_Some (ppos !! i)) ->
  overlay_cell g pos ppos pnum sf pr pc i
  = D ← read_SLIDE_DURATION g; Ok (sliding_to g D sf pnum pos ppos i).
Proof.
  intros Hp Hs Hprev. unfold overlay_cell, sliding_to, start_point.
  rewrite (getitem_Some _ _ Hp). cbn [mbind result_bind].
  destruct (default (0, 0) (pos !! i)) as [ex ey] eqn:Hend.
  unfold static_call in Hs. rewrite Hs.
  destruct (pnum <=? i) eqn:Hnew.
  - destruct (bool_decide (sf = Some "right"%string)); reflexivity.
  - apply Z.leb_gt in Hnew. destruct (Hprev Hnew) as [[sx sy] Hsp].
    unfold getitem. rewrite Hsp. reflexivity.
Qed.

(** The previous positions cover every cell that is not new. *)
Lemma previous_layout_keys pr pc pnum (ppos : positions_t) :
  previous_layout (F:=F) g pr pc = Ok (pnum, ppos) ->
  ∀ i, 0 <= i < pnum -> is_Some (ppos !! i).
Proof.
  unfold previous_layout. intros Hp i Hi.
  destruct (truthy pr && truthy pc).
  - apply bind_Ok_inv in Hp as ([[pw ph] ppos'] & Hl & Hp).
    injection Hp as <- <-. now apply (layout_keys g _ _ _ _ _ Hl).
  - injection Hp as <- <-. lia.
Qed.

Lemma raises_only_previous_layout pr pc :
  raises_only arith_error (previous_layout (F:=F) g pr pc).
Proof.
  unfold previous_layout. destruct (truthy pr && truthy pc); [|exact I].
  apply raises_only_bind; [apply raises_only_layout|].
  intros [[? ?] ?] _. exact I.
Qed.

Lemma inputs_Ok (gv : list string) (n : Z) :
  gv ≠ [] ->
  for_each (range n)
    (λ acc i, video_idx ← py_mod i (Z.of_nat (length gv));
              Ok (acc ++ [video_idx])) []
  = Ok (chosen_inputs gv n).
Proof.
  intros Hgv. unfold chosen_inputs.
  rewrite (for_each_collect_Ok _ (λ i, i mod Z.of_nat (length gv))); [done|].
  intros i _. unfold py_mod.
  destruct (Z.of_nat (length gv) =? 0) eqn:Hlen; [|reflexivity].
  apply Z.eqb_eq in Hlen. destruct gv; [done|simpl in Hlen; lia].
Qed.

(** A static call returns the static overlay of every cell. *)
Lemma create_grid_segment_static gv rows cols sf pr pc sw sh
    (pos : positions_t) pnum (ppos : positions_t) :
  calculate_grid_layout (F:=F) g rows cols = Ok (sw, sh, pos) ->
  previous_layout (F:=F) g pr pc = Ok (pnum, ppos) ->
  gv ≠ [] -> static_call sf pr pc = true ->
  create_grid_segment g gv rows cols sf pr pc
  = Ok {| seg_inputs := chosen_inputs gv (rows * cols);
          seg_scale := (sw, sh);
          seg_overlays := static_at pos <$> range (rows * cols) |}.
Proof.
  intros Hl Hp Hgv Hs. unfold create_grid_segment.
  rewrite Hl. cbn [mbind result_bind]. rewrite Hp. cbn [mbind result_bind].
  rewrite (inputs_Ok gv _ Hgv). cbn [mbind result_bind].
  rewrite (for_each_collect_Ok _ (static_at pos)); [reflexivity|].
  intros i Hi. apply elem_of_seqZ in Hi.
  apply overlay_cell_static; [|exact Hs].
  apply (layout_keys g _ _ _ _ _ Hl). lia.
Qed.

(** An animated call with [SLIDE_DURATION] bound to [D] returns the sliding
    overlay of every cell. *)
Lemma create_grid_segment_animated gv rows cols sf pr pc sw sh
    (pos : positions_t) pnum (ppos : positions_t) D :
  calculate_grid_layout (F:=F) g rows cols = Ok (sw, sh, pos) ->
  previous_layout (F:=F) g pr pc = Ok (pnum, ppos) ->
  gv ≠ [] -> static_call sf pr pc = false ->
  SLIDE_DURATION g = Some D ->
  create_grid_segment g gv rows cols sf pr pc
  = Ok {| seg_inputs := chosen_inputs gv (rows * cols);
          seg_scale := (sw, sh);
          seg_overlays :=
            sliding_to g D sf pnum pos ppos <$> range (rows * cols) |}.
Proof.
  intros Hl Hp Hgv Hs HD. unfold create_grid_segment.
  rewrite Hl. cbn [mbind result_bind]. rewrite Hp. cbn [mbind result_bind].
  rewrite (inputs_Ok gv _ Hgv). cbn [mbind result_bind].
  rewrite (for_each_collect_Ok _ (sliding_to g D sf pnum pos ppos));
    [reflexivity|].
  intros i Hi. apply elem_of_seqZ in Hi.
  rewrite overlay_cell_animated; [| |exact Hs|].
  - unfold read_SLIDE_DURATION. rewrite HD. reflexivity.
  - apply (layout_keys g _ _ _ _ _ Hl). lia.
  - intros Hlt. apply (previous_layout_keys _ _ _ _ Hp). lia.
Qed.

(** An animated call of a grid with at least one cell, [SLIDE_DURATION]
    unbound: NameError at the first cell. *)
Lemma create_grid_segment_unbound gv rows cols sf pr pc sw sh
    (pos : positions_t) pnum (ppos : positions_t) :
  calculate_grid_layout (F:=F) g rows cols = Ok (sw, sh, pos) ->
  previous_layout (F:=F) g pr pc = Ok (pnum, ppos) ->
  gv ≠ [] -> static_call sf pr pc = false ->
  SLIDE_DURATION g = None -> 0 < rows * cols ->
  create_grid_segment g gv rows cols sf pr pc = Raise NameError.
Proof.
  intros Hl Hp Hgv Hs HD Hn. unfold create_grid_segment.
  rewrite Hl. cbn [mbind result_bind]. rewrite Hp. cbn [mbind result_bind].
  rewrite (inputs_Ok gv _ Hgv). cbn [mbind result_bind].
  unfold range. rewrite seqZ_cons by lia.
  rewrite (for_each_collect_Raise _ NameError); [reflexivity|].
  rewrite overlay_cell_animated; [| |exact Hs|].
  - unfold read_SLIDE_DURATION. rewrite HD. reflexivity.
  - apply (layout_keys g _ _ _ _ _ Hl). lia.
  - intros Hlt. apply (previous_layout_keys _ _ _ _ Hp). lia.
Qed.
End AnyFloatSegment.

Section AnyFloatSafety.
Context {F : Type} `{PyFloat F}.
Variable g : globals.

(** Whatever its arguments, [create_grid_segment] raises an arithmetic error
    or the NameError of the unbound [SLIDE_DURATION], nothing else. *)
Lemma raises_only_segment gv rows cols sf pr pc :
  raises_only (λ e, arith_error e ∨ e = NameError)
    (create_grid_segment (F:=F) g gv rows cols sf pr pc).
Proof.
  unfold create_grid_segment.
  apply raises_only_bind.
  { eapply raises_only_mono; [apply raises_only_layout|]. auto. }
  intros [[sw sh] pos] Hl.
  apply raises_only_bind.
  { eapply raises_only_mono; [apply raises_only_previous_layout|]. auto. }
  intros [pnum ppos] Hp.
  apply raises_only_bind.
  { apply raises_only_for_each. intros acc i _.
    apply raises_only_bind; [|intros; exact I].
    eapply raises_only_mono; [apply raises_only_mod|]. auto. }
  intros inputs _.
  apply raises_only_bind; [|intros; exact I].
  apply raises_only_for_each. intros acc i Hi. apply elem_of_seqZ in Hi.
  apply raises_only_bind; [|intros; exact I].
  assert (is_Some (pos !! i)) as Hpos
    by (apply (layout_keys g _ _ _ _ _ Hl); lia).
  destruct (static_call sf pr pc) eqn:Hs.
  - now rewrite overlay_cell_static.
  - rewrite overlay_cell_animated; [|exact Hpos|exact Hs|].
    + unfold read_SLIDE_DURATION. destruct (SLIDE_DURATION g); simpl; auto.
    + intros Hlt. apply (previous_layout_keys g _ _ _ _ Hp). lia.
Qed.
End AnyFloatSafety.

(** C10. When [prev_rows] and [prev_cols] are both at least 1, the previous
    layout is keyed exactly by [0 .. prev_rows * prev_cols - 1], so the
    lookup [prev_positions[i]] of a cell that is not new succeeds, and
    [create_grid_segment] never raises KeyError.  This holds for any float
    arithmetic; under exact arithmetic and a valid configuration the
    previous layout is indeed computed. *)
Theorem previous_position_lookup_total {F : Type} `{PyFloat F}
    (g : globals) (gv : list string) (rows cols : Z) (sf : option string)
    (pr pc : Z) :
  1 <= pr -> 1 <= pc ->
  (∀ pnum ppos,
     previous_layout (F:=F) g (Some pr) (Some pc) = Ok (pnum, ppos) ->
     pnum = pr * pc ∧
     (∀ i, is_Some (ppos !! i) ↔ 0 <= i < pr * pc) ∧
     (∀ i, 0 <= i -> ¬ (pnum <= i) -> ∃ p, getitem ppos i = Ok p)) ∧
  create_grid_segment (F:=F) g gv rows cols sf (Some pr) (Some pc)
    ≠ Raise KeyError ∧
  (valid_config g ->
   ∃ pnum ppos,
     previous_layout (F:=Q) g (Some pr) (Some pc) = Ok (pnum, ppos)).
Proof.
  intros Hpr Hpc. split; [|split].
  - intros pnum ppos Hp. unfold previous_layout in Hp.
    assert (truthy (Some pr) && truthy (Some pc) = true) as Ht.
    { simpl. apply andb_true_iff. rewrite !negb_true_iff, !Z.eqb_neq. lia. }
    rewrite Ht in Hp. simpl default in Hp.
    apply bind_Ok_inv in Hp as ([[pw ph] ppos'] & Hl & Hp).
    injection Hp as <- <-.
    pose proof (layout_keys g _ _ _ _ _ Hl) as Hkeys.
    split; [reflexivity|]. split; [exact Hkeys|].
    intros i Hi0 Hnew. destruct (proj2 (Hkeys i)) as [p Hp]; [lia|].
    exists p. unfold getitem. now rewrite Hp.
  - intros Hraise.
    pose proof (raises_only_segment g gv rows cols sf (Some pr) (Some pc))
      as Honly.
    rewrite Hraise in Honly. simpl in Honly. unfold arith_error in Honly.
    destruct Honly as [[?|[?|?]]|?]; discriminate.
  - intros (HW & HH & Hvw & Hvh). unfold previous_layout.
    assert (truthy (Some pr) && truthy (Some pc) = true) as ->.
    { simpl. apply andb_true_iff. rewrite !negb_true_iff, !Z.eqb_neq. lia. }
    simpl default.
    pose proof (layout_exact g pr pc) as Hlay.
    apply returns_Ok in Hlay as ([[pw ph] ppos] & -> & _); [|lia..].
    simpl. eauto.
Qed.

Lemma previous_position_lookup_total_witness :
  (∀ pnum ppos,
     previous_layout (F:=float) defaults (Some 1) (Some 1) = Ok (pnum, ppos) ->
     pnum = 1 * 1 ∧
     (∀ i, is_Some (ppos !! i) ↔ 0 <= i < 1 * 1) ∧
     (∀ i, 0 <= i -> ¬ (pnum <= i) -> ∃ p, getitem ppos i = Ok p)) ∧
  create_grid_segment (F:=float) defaults ["a.mp4"%string] 2 2
    (Some "right"%string) (Some 1) (Some 1) ≠ Raise KeyError ∧
  (valid_config defaults ->
   ∃ pnum ppos,
     previous_layout (F:=Q) defaults (Some 1) (Some 1) = Ok (pnum, ppos)).
Proof.
  apply (previous_position_lookup_total (F:=float) defaults ["a.mp4"%string]
           2 2 (Some "right"%string) 1 1); lia.
Defined.

(** * Animated segments under exact arithmetic *)

Lemma truthy_pos (n : Z) : 1 <= n -> truthy (Some n) = true.
Proof. intros Hn. simpl. apply negb_true_iff, Z.eqb_neq. lia. Qed.

Lemma static_call_animated (sf : option string) (pr pc : Z) :
  sf ≠ None -> 1 <= pr -> 1 <= pc ->
  static_call sf (Some pr) (Some pc) = false.
Proof.
  intros Hsf Hpr Hpc. unfold static_call.
  rewrite !truthy_pos by assumption.
  rewrite bool_decide_eq_false_2 by exact Hsf. reflexivity.
Qed.

(** An animated call on valid inputs returns the sliding overlay of every
    cell, from the layouts of the previous and the current grid. *)
Lemma animated_segment_exact (g : globals) (gv : list string)
    (rows cols pr pc : Z) (sf : option string) (D : Q) :
  valid_config g -> 1 <= rows -> 1 <= cols -> 1 <= pr -> 1 <= pc ->
  gv ≠ [] -> sf ≠ None -> SLIDE_DURATION g = Some D ->
  ∃ sw sh pos pw ph ppos,
    calculate_grid_layout (F:=Q) g rows cols = Ok (sw, sh, pos) ∧
    calculate_grid_layout (F:=Q) g pr pc = Ok (pw, ph, ppos) ∧
    create_grid_segment (F:=Q) g gv rows cols sf (Some pr) (Some pc)
    = Ok {| seg_inputs := chosen_inputs gv (rows * cols);
            seg_scale := (sw, sh);
            seg_overlays :=
              sliding_to g D sf (pr * pc) pos ppos <$> range (rows * cols) |}.
Proof.
  intros Hv Hr Hc Hpr Hpc Hgv Hsf HD.
  pose proof Hv as (HW & HH & Hvw & Hvh).
  pose proof (layout_exact g rows cols) as Hlay.
  apply returns_Ok in Hlay as ([[sw sh] pos] & Hl & _); [|lia..].
  pose proof (layout_exact g pr pc) as Hprev.
  apply returns_Ok in Hprev as ([[pw ph] ppos] & Hlp & _); [|lia..].
  exists sw, sh, pos, pw, ph, ppos. split; [exact Hl|]. split; [exact Hlp|].
  apply create_grid_segment_animated; try assumption.
  - unfold previous_layout. rewrite !truthy_pos by assumption.
    simpl. rewrite Hlp. reflexivity.
  - now apply static_call_animated.
Qed.

Lemma lookup_range_fmap {A : Type} (h : Z -> A) (n i : Z) :
  0 <= i < n -> (h <$> range n) !! Z.to_nat i = Some (h i).
Proof.
  intros Hi. unfold range. rewrite list_lookup_fmap.
  rewrite lookup_seqZ_lt by lia. simpl. f_equal. f_equal. lia.
Qed.

(** The position of a sliding cell: both coordinates evaluated at [t]. *)
Lemma positionAt_sliding (g : globals) (D : Q) (sf : option string)
    (pnum : Z) (pos ppos : positions_t) (inputs : list Z) (scale : Z * Z)
    (n i : Z) (t : Q) (ex ey : Z) :
  0 <= i < n -> pos !! i = Some (ex, ey) ->
  positionAt {| seg_inputs := inputs; seg_scale := scale;
                seg_overlays := sliding_to g D sf pnum pos ppos <$> range n |}
    i t
  = x ← eval t (slide_expr D (start_point g sf pnum ppos i (ex, ey)).1 ex);
    y ← eval t (slide_expr D (start_point g sf pnum ppos i (ex, ey)).2 ey);
    Some (x, y).
Proof.
  intros Hi Hp. unfold positionAt.
  assert ((i <? 0) = false) as -> by (apply Z.ltb_ge; lia).
  cbn [seg_overlays]. rewrite lookup_range_fmap by exact Hi.
  unfold sliding_to. rewrite Hp. reflexivity.
Qed.

(** * The animation claims *)

(** C6. With [SLIDE_DURATION <= 0] every cell of an animated segment is at
    its final position at every [t >= 0]: the expressions evaluate, so no
    division by zero is evaluated, and their value is the end position. *)
Theorem instantaneous_slide (g : globals) (gv : list string)
    (rows cols pr pc : Z) (sf : option string) (D : Q) :
  valid_config g -> 1 <= rows -> 1 <= cols -> 1 <= pr -> 1 <= pc ->
  gv ≠ [] -> sf ≠ None -> SLIDE_DURATION g = Some D -> (D <= 0)%Q ->
  ∃ sw sh pos seg,
    calculate_grid_layout (F:=Q) g rows cols = Ok (sw, sh, pos) ∧
    create_grid_segment (F:=Q) g gv rows cols sf (Some pr) (Some pc)
      = Ok seg ∧
    ∀ i ex ey t, pos !! i = Some (ex, ey) -> (0 <= t)%Q ->
      positionAt seg i t = Some (inject_Z ex, inject_Z ey).
Proof.
  intros Hv Hr Hc Hpr Hpc Hgv Hsf HD HD0.
  destruct (animated_segment_exact g gv rows cols pr pc sf D)
    as (sw & sh & pos & pw & ph & ppos & Hl & Hlp & Hseg); try assumption.
  exists sw, sh, pos. eexists. split; [exact Hl|]. split; [exact Hseg|].
  intros i ex ey t Hp Ht.
  assert (0 <= i < rows * cols) as Hi
    by (apply (layout_keys g _ _ _ _ _ Hl); eauto).
  rewrite (positionAt_sliding _ _ _ _ _ _ _ _ _ _ _ ex ey Hi Hp).
  rewrite !eval_slide_after by lra. reflexivity.
Qed.

Lemma instantaneous_slide_witness :
  ∃ sw sh pos seg,
    calculate_grid_layout (F:=Q)
      (with_slide_duration 0 (cabinet "none" 1920 1080 420 315)) 2 2
      = Ok (sw, sh, pos) ∧
    create_grid_segment (F:=Q)
      (with_slide_duration 0 (cabinet "none" 1920 1080 420 315))
      ["a.mp4"%string] 2 2 (Some "right"%string) (Some 1) (Some 1)
      = Ok seg ∧
    ∀ i ex ey t, pos !! i = Some (ex, ey) -> (0 <= t)%Q ->
      positionAt seg i t = Some (inject_Z ex, inject_Z ey).
Proof.
  apply (instantaneous_slide
           (with_slide_duration 0 (cabinet "none" 1920 1080 420 315))
           ["a.mp4"%string] 2 2 1 1 (Some "right"%string) 0).
  - unfold valid_config; simpl; lia.
  - lia.
  - lia.
  - lia.
  - lia.
  - discriminate.
  - discriminate.
  - reflexivity.
  - discriminate.
Defined.

(** C2, as stated, fails for a slide of duration 0: growing a 1x1 grid to
    2x2 with new cells entering from the right, cell 1 is at its final
    position (960, 0) already at [t = 0], not at the canvas width 1920. *)
Lemma zero_duration_starts_at_end :
  let g := with_slide_duration 0 (cabinet "none" 1920 1080 420 315) in
  ∃ seg,
    create_grid_segment (F:=float) g ["a.mp4"%string] 2 2
      (Some "right"%string) (Some 1) (Some 1) = Ok seg ∧
    create_grid_segment (F:=Q) g ["a.mp4"%string] 2 2
      (Some "right"%string) (Some 1) (Some 1) = Ok seg ∧
    positionAt seg 1 0 = Some (960%Q, 0%Q) ∧
    OUTPUT_WIDTH g = 1920.
Proof.
  eexists. split; [vm_compute; reflexivity|].
  split; [vm_compute; reflexivity|].
  split; vm_compute; reflexivity.
Qed.

(** C2, amended. In an animated segment (previous grid present), every cell
    is exactly at its final position from [SLIDE_DURATION] on; and when
    [SLIDE_DURATION > 0] it is at its start position at [t = 0]: the
    previous position for a cell that persists, and for a new cell the
    point off the canvas, [(canvas width, end y)] when sliding from the right
    and [(end x, canvas height)] otherwise (from the bottom). *)
Theorem slide_endpoints (g : globals) (gv : list string)
    (rows cols pr pc : Z) (sf : option string) (D : Q) :
  valid_config g -> 1 <= rows -> 1 <= cols -> 1 <= pr -> 1 <= pc ->
  gv ≠ [] -> sf ≠ None -> SLIDE_DURATION g = Some D ->
  ∃ sw sh pos pw ph ppos seg,
    calculate_grid_layout (F:=Q) g rows cols = Ok (sw, sh, pos) ∧
    calculate_grid_layout (F:=Q) g pr pc = Ok (pw, ph, ppos) ∧
    create_grid_segment (F:=Q) g gv rows cols sf (Some pr) (Some pc)
      = Ok seg ∧
    ∀ i ex ey, pos !! i = Some (ex, ey) ->
      (∀ t, (D <= t)%Q ->
         positionAt seg i t = Some (inject_Z ex, inject_Z ey)) ∧
      ((0 < D)%Q ->
       ∃ x y, positionAt seg i 0 = Some (x, y) ∧
         (i < pr * pc ->
          ∃ sx sy, ppos !! i = Some (sx, sy) ∧
                   (x == inject_Z sx)%Q ∧ (y == inject_Z sy)%Q) ∧
         (pr * pc <= i -> sf = Some "right"%string ->
          (x == inject_Z (OUTPUT_WIDTH g))%Q ∧ (y == inject_Z ey)%Q) ∧
         (pr * pc <= i -> sf ≠ Some "right"%string ->
          (x == inject_Z ex)%Q ∧ (y == inject_Z (OUTPUT_HEIGHT g))%Q)).
Proof.
  intros Hv Hr Hc Hpr Hpc Hgv Hsf HD.
  destruct (animated_segment_exact g gv rows cols pr pc sf D)
    as (sw & sh & pos & pw & ph & ppos & Hl & Hlp & Hseg); try assumption.
  exists sw, sh, pos, pw, ph, ppos. eexists.
  split; [exact Hl|]. split; [exact Hlp|]. split; [exact Hseg|].
  intros i ex ey Hp.
  assert (0 <= i < rows * cols) as Hi
    by (apply (layout_keys g _ _ _ _ _ Hl); eauto).
  split.
  - intros t Ht.
    rewrite (positionAt_sliding _ _ _ _ _ _ _ _ _ _ _ ex ey Hi Hp).
    rewrite !eval_slide_after by exact Ht. reflexivity.
  - intros HD0.
    rewrite (positionAt_sliding _ _ _ _ _ _ _ _ _ _ _ ex ey Hi Hp).
    assert (¬ (D == 0)%Q) as HDne by lra.
    rewrite !eval_slide_during by assumption. simpl.
    eexists _, _. split; [reflexivity|].
    unfold start_point. split; [|split].
    + intros Hlt.
      assert ((pr * pc <=? i) = false) as -> by (apply Z.leb_gt; lia).
      destruct (proj2 (layout_keys g _ _ _ _ _ Hlp i)) as [[sx sy] Hsp];
        [lia|].
      exists sx, sy. rewrite Hsp. simpl.
      repeat split; now apply slide_value_0.
    + intros Hnew Hright.
      assert ((pr * pc <=? i) = true) as -> by (apply Z.leb_le; lia).
      rewrite bool_decide_eq_true_2 by exact Hright.
      split; now apply slide_value_0.
    + intros Hnew Hbottom.
      assert ((pr * pc <=? i) = true) as -> by (apply Z.leb_le; lia).
      rewrite bool_decide_eq_false_2 by exact Hbottom.
      split; now apply slide_value_0.
Qed.

Lemma slide_endpoints_witness :
  let g := with_slide_duration 1 (cabinet "none" 1920 1080 420 315) in
  ∃ sw sh pos pw ph ppos seg,
    calculate_grid_layout (F:=Q) g 2 2 = Ok (sw, sh, pos) ∧
    calculate_grid_layout (F:=Q) g 1 1 = Ok (pw, ph, ppos) ∧
    create_grid_segment (F:=Q) g ["a.mp4"%string] 2 2
      (Some "right"%string) (Some 1) (Some 1) = Ok seg ∧
    ∀ i ex ey, pos !! i = Some (ex, ey) ->
      (∀ t, (1 <= t)%Q ->
         positionAt seg i t = Some (inject_Z ex, inject_Z ey)) ∧
      ((0 < 1)%Q ->
       ∃ x y, positionAt seg i 0 = Some (x, y) ∧
         (i < 1 * 1 ->
          ∃ sx sy, ppos !! i = Some (sx, sy) ∧
                   (x == inject_Z sx)%Q ∧ (y == inject_Z sy)%Q) ∧
         (1 * 1 <= i -> Some "right"%string = Some "right"%string ->
          (x == inject_Z (OUTPUT_WIDTH g))%Q ∧ (y == inject_Z ey)%Q) ∧
         (1 * 1 <= i -> Some "right"%string ≠ Some "right"%string ->
          (x == inject_Z ex)%Q ∧ (y == inject_Z (OUTPUT_HEIGHT g))%Q)).
Proof.
  apply (slide_endpoints
           (with_slide_duration 1 (cabinet "none" 1920 1080 420 315))
           ["a.mp4"%string] 2 2 1 1 (Some "right"%string) 1).
  - unfold valid_config; simpl; lia.
  - lia.
  - lia.
  - lia.
  - lia.
  - discriminate.
  - discriminate.
  - reflexivity.
Defined.

(** The scenario of C2, by evaluation (the layouts under doubles and under
    exact arithmetic alike): growing 1x1 to 2x2 from the right with a slide
    of one second, cell 0 persists, at (240, 0) before and after; cells 1,
    2, 3 start at x = 1920, the canvas width, and end at their positions in
    the 2x2 layout. *)
Example grow_1x1_to_2x2_from_right :
  let g := with_slide_duration 1 (cabinet "none" 1920 1080 420 315) in
  ∃ seg,
    create_grid_segment (F:=float) g ["a.mp4"%string] 2 2
      (Some "right"%string) (Some 1) (Some 1) = Ok seg ∧
    create_grid_segment (F:=Q) g ["a.mp4"%string] 2 2
      (Some "right"%string) (Some 1) (Some 1) = Ok seg ∧
    (λ i, reduced (positionAt seg i 0)) <$> [0; 1; 2; 3]
      = [Some (240, 0); Some (1920, 0); Some (1920, 540); Some (1920, 540)]%Q
    ∧
    (λ i, reduced (positionAt seg i (1 # 2))) <$> [0; 1; 2; 3]
      = [Some (240, 0); Some (1440, 0); Some (1080, 540); Some (1440, 540)]%Q
    ∧
    (λ i, reduced (positionAt seg i 1)) <$> [0; 1; 2; 3]
      = [Some (240, 0); Some (960, 0); Some (240, 540); Some (960, 540)]%Q.
Proof.
  eexists. split; [vm_compute; reflexivity|].
  repeat split; vm_compute; reflexivity.
Qed.

(** One coordinate of a slide, over the slide: it moves toward the end
    coordinate and never back. *)
Lemma slide_coordinate_monotone (D : Q) (s e : Z) (t1 t2 : Q) :
  (0 < D)%Q -> (0 <= t1)%Q -> (t1 <= t2)%Q -> (t2 <= D)%Q ->
  ∃ p1 p2,
    eval t1 (slide_expr D s e) = Some p1 ∧
    eval t2 (slide_expr D s e) = Some p2 ∧
    (s <= e -> (p1 <= p2)%Q) ∧ (e <= s -> (p2 <= p1)%Q).
Proof.
  intros HD Ht1 Ht12 Ht2.
  assert (¬ (D == 0)%Q) as HDne by lra.
  (* the eased fraction of the way, 1 once the slide is over *)
  set (frac := λ t : Q,
         if Qlt_le_dec t D then smoothstep_value (t / D) else 1%Q).
  assert (∀ t, ∃ p, eval t (slide_expr D s e) = Some p ∧
            (p == inject_Z s + (inject_Z e - inject_Z s) * frac t)%Q)
    as Hval.
  { intros t. unfold frac. destruct (Qlt_le_dec t D) as [Hlt|Hge].
    - rewrite eval_slide_during by assumption. eexists. split; reflexivity.
    - rewrite eval_slide_after by assumption. eexists.
      split; [reflexivity|]. ring. }
  assert (∀ t, (0 <= t)%Q -> (t < D)%Q -> (0 <= t / D)%Q ∧ (t / D <= 1)%Q)
    as Hunit.
  { intros t H0 HltD. split.
    - apply Qle_shift_div_l; [exact HD|]. lra.
    - apply Qle_shift_div_r; [exact HD|]. lra. }
  assert (frac t1 <= frac t2)%Q as Hfrac.
  { unfold frac.
    destruct (Qlt_le_dec t1 D) as [H1|H1], (Qlt_le_dec t2 D) as [H2|H2];
      try lra.
    - destruct (Hunit t1 Ht1 H1), (Hunit t2 ltac:(lra) H2).
      apply smoothstep_value_mono; [assumption| |assumption].
      apply Qle_shift_div_l; [exact HD|].
      setoid_replace (t1 / D * D)%Q with t1 using relation Qeq
        by (field; exact HDne).
      exact Ht12.
    - destruct (Hunit t1 Ht1 H1).
      rewrite <- smoothstep_value_1.
      apply smoothstep_value_mono; [assumption..|lra]. }
  destruct (Hval t1) as (p1 & Hp1 & Hq1), (Hval t2) as (p2 & Hp2 & Hq2).
  exists p1, p2. split; [exact Hp1|]. split; [exact Hp2|].
  split; intros Hse; rewrite Zle_Qle in Hse; rewrite Hq1, Hq2.
  - assert (0 <= (inject_Z e - inject_Z s) * (frac t2 - frac t1))%Q
      by (apply Qmult_le_0_compat; lra).
    lra.
  - assert (0 <= (inject_Z s - inject_Z e) * (frac t2 - frac t1))%Q
      by (apply Qmult_le_0_compat; lra).
    lra.
Qed.

(** C7. For a cell that persists (it has a previous position), with
    [SLIDE_DURATION > 0], each coordinate of its position is monotonic in
    [t] over [[0, SLIDE_DURATION]]: it does not decrease when the end
    coordinate is at least the start coordinate, and does not increase when
    it is at most the start coordinate. *)
Theorem persisting_cell_monotone (g : globals) (gv : list string)
    (rows cols pr pc : Z) (sf : option string) (D : Q) :
  valid_config g -> 1 <= rows -> 1 <= cols -> 1 <= pr -> 1 <= pc ->
  gv ≠ [] -> sf ≠ None -> SLIDE_DURATION g = Some D -> (0 < D)%Q ->
  ∃ sw sh pos pw ph ppos seg,
    calculate_grid_layout (F:=Q) g rows cols = Ok (sw, sh, pos) ∧
    calculate_grid_layout (F:=Q) g pr pc = Ok (pw, ph, ppos) ∧
    create_grid_segment (F:=Q) g gv rows cols sf (Some pr) (Some pc)
      = Ok seg ∧
    ∀ i ex ey sx sy t1 t2,
      pos !! i = Some (ex, ey) -> ppos !! i = Some (sx, sy) ->
      (0 <= t1)%Q -> (t1 <= t2)%Q -> (t2 <= D)%Q ->
      ∃ x1 y1 x2 y2,
        positionAt seg i t1 = Some (x1, y1) ∧
        positionAt seg i t2 = Some (x2, y2) ∧
        (sx <= ex -> (x1 <= x2)%Q) ∧ (ex <= sx -> (x2 <= x1)%Q) ∧
        (sy <= ey -> (y1 <= y2)%Q) ∧ (ey <= sy -> (y2 <= y1)%Q).
Proof.
  intros Hv Hr Hc Hpr Hpc Hgv Hsf HD HD0.
  destruct (animated_segment_exact g gv rows cols pr pc sf D)
    as (sw & sh & pos & pw & ph & ppos & Hl & Hlp & Hseg); try assumption.
  exists sw, sh, pos, pw, ph, ppos. eexists.
  split; [exact Hl|]. split; [exact Hlp|]. split; [exact Hseg|].
  intros i ex ey sx sy t1 t2 Hp Hsp Ht1 Ht12 Ht2.
  assert (0 <= i < rows * cols) as Hi
    by (apply (layout_keys g _ _ _ _ _ Hl); eauto).
  assert (0 <= i < pr * pc) as Hip
    by (apply (layout_keys g _ _ _ _ _ Hlp); eauto).
  rewrite !(positionAt_sliding _ _ _ _ _ _ _ _ _ _ _ ex ey Hi Hp).
  assert (start_point g sf (pr * pc) ppos i (ex, ey) = (sx, sy)) as ->.
  { unfold start_point.
    assert ((pr * pc <=? i) = false) as -> by (apply Z.leb_gt; lia).
    now rewrite Hsp. }
  simpl fst. simpl snd.
  destruct (slide_coordinate_monotone D sx ex t1 t2)
    as (x1 & x2 & -> & -> & Hxup & Hxdown); try assumption.
  destruct (slide_coordinate_monotone D sy ey t1 t2)
    as (y1 & y2 & -> & -> & Hyup & Hydown); try assumption.
  exists x1, y1, x2, y2. simpl. tauto.
Qed.

Lemma persisting_cell_monotone_witness :
  let g := with_slide_duration 1 (cabinet "even" 1920 1080 659 741) in
  ∃ sw sh pos pw ph ppos seg,
    calculate_grid_layout (F:=Q) g 3 3 = Ok (sw, sh, pos) ∧
    calculate_grid_layout (F:=Q) g 2 2 = Ok (pw, ph, ppos) ∧
    create_grid_segment (F:=Q) g ["a.mp4"%string] 3 3
      (Some "bottom"%string) (Some 2) (Some 2) = Ok seg ∧
    ∀ i ex ey sx sy t1 t2,
      pos !! i = Some (ex, ey) -> ppos !! i = Some (sx, sy) ->
      (0 <= t1)%Q -> (t1 <= t2)%Q -> (t2 <= 1)%Q ->
      ∃ x1 y1 x2 y2,
        positionAt seg i t1 = Some (x1, y1) ∧
        positionAt seg i t2 = Some (x2, y2) ∧
        (sx <= ex -> (x1 <= x2)%Q) ∧ (ex <= sx -> (x2 <= x1)%Q) ∧
        (sy <= ey -> (y1 <= y2)%Q) ∧ (ey <= sy -> (y2 <= y1)%Q).
Proof.
  apply (persisting_cell_monotone
           (with_slide_duration 1 (cabinet "even" 1920 1080 659 741))
           ["a.mp4"%string] 3 3 2 2 (Some "bottom"%string) 1).
  - unfold valid_config; simpl; lia.
  - lia.
  - lia.
  - lia.
  - lia.
  - discriminate.
  - discriminate.
  - reflexivity.
  - reflexivity.
Defined.

(** * The segment loop of [main] *)

Lemma for_each_ext {A S : Type} (body body' : S -> A -> result S)
    (xs : list A) (acc : S) :
  (∀ acc' x, body acc' x = body' acc' x) ->
  for_each xs body acc = for_each xs body' acc.
Proof.
  intros Hext. revert acc. induction xs as [|x xs IH]; intros acc; [done|].
  cbn [for_each]. rewrite Hext. destruct (body' acc x); simpl; auto.
Qed.

Lemma for_each_collect_inv {A B : Type} (f : A -> result B) (xs : list A)
    (acc l : list B) :
  for_each xs (λ acc x, o ← f x; Ok (acc ++ [o])) acc = Ok l ->
  ∃ os, l = acc ++ os ∧ Forall2 (λ x o, f x = Ok o) xs os.
Proof.
  revert acc. induction xs as [|x xs IH]; intros acc Hl.
  - injection Hl as <-. exists []. split; [now rewrite app_nil_r|constructor].
  - cbn [for_each] in Hl. apply bind_Ok_inv in Hl as (acc' & Hx & Hl).
    apply bind_Ok_inv in Hx as (o & Ho & Hx). injection Hx as <-.
    apply IH in Hl as (os & -> & Hall).
    exists (o :: os). split; [now rewrite <- app_assoc|].
    now constructor.
Qed.

Section MainLoop.
Context {F : Type} `{PyFloat F}.
Variable g : globals.
Variable gv : list string.

(** The loop of [main], one call per grid state. *)
Lemma main_segments_calls :
  main_segments (F:=F) g gv
  = for_each (generate_grid_sequence g)
      (λ acc rc,
         s ← create_grid_segment g gv rc.1 rc.2 None None None;
         Ok (acc ++ [s])) [].
Proof.
  unfold main_segments. apply for_each_ext. intros acc [rows cols].
  reflexivity.
Qed.

(** A static call raises arithmetic errors only. *)
Lemma raises_only_static_segment rows cols sf pr pc :
  static_call sf pr pc = true ->
  raises_only arith_error (create_grid_segment (F:=F) g gv rows cols sf pr pc).
Proof.
  intros Hs. unfold create_grid_segment.
  apply raises_only_bind; [apply raises_only_layout|].
  intros [[sw sh] pos] Hl.
  apply raises_only_bind; [apply raises_only_previous_layout|].
  intros [pnum ppos] Hp.
  apply raises_only_bind.
  { apply raises_only_for_each. intros acc i _.
    apply raises_only_bind; [apply raises_only_mod|intros; exact I]. }
  intros inputs _.
  apply raises_only_bind; [|intros; exact I].
  apply raises_only_for_each. intros acc i Hi. apply elem_of_seqZ in Hi.
  apply raises_only_bind; [|intros; exact I].
  rewrite overlay_cell_static; [exact I| |exact Hs].
  apply (layout_keys g _ _ _ _ _ Hl). lia.
Qed.

(** A static call that returns has placed every cell at its position in
    the layout, with the static overlay. *)
Lemma static_segment_inv rows cols sf pr pc seg :
  static_call sf pr pc = true ->
  create_grid_segment (F:=F) g gv rows cols sf pr pc = Ok seg ->
  ∃ sw sh pos,
    calculate_grid_layout (F:=F) g rows cols = Ok (sw, sh, pos) ∧
    seg_scale seg = (sw, sh) ∧
    seg_overlays seg = static_at pos <$> range (rows * cols).
Proof.
  intros Hs Hseg. unfold create_grid_segment in Hseg.
  apply bind_Ok_inv in Hseg as ([[sw sh] pos] & Hl & Hseg).
  apply bind_Ok_inv in Hseg as ([pnum ppos] & Hp & Hseg).
  apply bind_Ok_inv in Hseg as (inputs & _ & Hseg).
  apply bind_Ok_inv in Hseg as (overlays & Hov & Hseg).
  injection Hseg as <-. exists sw, sh, pos.
  split; [exact Hl|]. split; [reflexivity|]. simpl.
  rewrite (for_each_collect_Ok _ (static_at pos)) in Hov.
  - now injection Hov as <-.
  - intros i Hi. apply elem_of_seqZ in Hi.
    apply overlay_cell_static; [|exact Hs].
    apply (layout_keys g _ _ _ _ _ Hl). lia.
Qed.

(** [main] raises arithmetic errors only, and the segments it gets are
    static. *)
Lemma main_segments_static :
  raises_only arith_error (main_segments (F:=F) g gv) ∧
  ∀ segs, main_segments (F:=F) g gv = Ok segs ->
    Forall2 (λ rc seg,
      ∃ sw sh pos,
        calculate_grid_layout (F:=F) g rc.1 rc.2 = Ok (sw, sh, pos) ∧
        seg_overlays seg = static_at pos <$> range (rc.1 * rc.2))
      (generate_grid_sequence g) segs.
Proof.
  rewrite main_segments_calls. split.
  - apply raises_only_for_each. intros acc rc _.
    apply raises_only_bind; [|intros; exact I].
    now apply raises_only_static_segment.
  - intros segs Hsegs.
    apply for_each_collect_inv in Hsegs as (os & -> & Hall). simpl.
    eapply Forall2_impl; [exact Hall|]. simpl. intros rc seg Hseg.
    apply static_segment_inv in Hseg as (sw & sh & pos & Hl & _ & Hov);
      [|reflexivity].
    eauto.
Qed.
End MainLoop.

(** Under exact arithmetic and a valid configuration with at least one
    video, [main] gets a segment for each of the [MAX_GRID_SIZE] states. *)
Lemma main_segments_exact (g : globals) (gv : list string) :
  valid_config g -> gv ≠ [] ->
  ∃ segs, main_segments (F:=Q) g gv = Ok segs ∧
          length segs = Z.to_nat (MAX_GRID_SIZE g).
Proof.
  intros Hv Hgv. pose proof Hv as (HW & HH & Hvw & Hvh).
  rewrite main_segments_calls.
  set (h := λ rc : Z * Z,
         match calculate_grid_layout (F:=Q) g rc.1 rc.2 with
         | Ok (sw, sh, pos) =>
             {| seg_inputs := chosen_inputs gv (rc.1 * rc.2);
                seg_scale := (sw, sh);
                seg_overlays := static_at pos <$> range (rc.1 * rc.2) |}
         | Raise _ =>
             {| seg_inputs := []; seg_scale := (0, 0); seg_overlays := [] |}
         end).
  exists (h <$> generate_grid_sequence g). split.
  - rewrite (for_each_collect_Ok _ h); [reflexivity|].
    intros [rows cols] Hin. unfold generate_grid_sequence in Hin.
    apply list_elem_of_fmap in Hin as (size & [= -> ->] & Hsize).
    apply elem_of_seqZ in Hsize.
    pose proof (layout_exact g size size) as Hlay.
    apply returns_Ok in Hlay as ([[sw sh] pos] & Hl & _); [|lia..].
    unfold h. simpl fst. simpl snd. rewrite Hl.
    apply (create_grid_segment_static g gv size size None None None
             sw sh pos 0 ∅);
      [exact Hl | reflexivity | exact Hgv | reflexivity].
  - unfold generate_grid_sequence. now rewrite !length_fmap, length_seqZ.
Qed.

(** C9. [main] calls [create_grid_segment] with [None, None, None] only: for
    any float arithmetic it raises nothing but arithmetic errors, so never
    the NameError, and every segment it gets places each cell with the
    static overlay at its position in the layout; under exact arithmetic,
    a valid configuration and at least one video it gets all
    [MAX_GRID_SIZE] segments.  The animated branch, which reads the unbound
    [SLIDE_DURATION], would raise NameError on any grid. *)
Theorem main_never_animates (g : globals) (gv : list string) :
  SLIDE_DURATION g = None ->
  (∀ (F : Type) (HF : PyFloat F),
     raises_only arith_error (main_segments (F:=F) g gv) ∧
     ∀ segs, main_segments (F:=F) g gv = Ok segs ->
       Forall2 (λ rc seg,
         ∃ sw sh pos,
           calculate_grid_layout (F:=F) g rc.1 rc.2 = Ok (sw, sh, pos) ∧
           seg_overlays seg = static_at pos <$> range (rc.1 * rc.2))
         (generate_grid_sequence g) segs) ∧
  (valid_config g -> gv ≠ [] ->
   ∃ segs, main_segments (F:=Q) g gv = Ok segs ∧
           length segs = Z.to_nat (MAX_GRID_SIZE g)) ∧
  (valid_config g -> gv ≠ [] ->
   ∀ rows cols sf pr pc,
     1 <= rows -> 1 <= cols -> 1 <= pr -> 1 <= pc -> sf ≠ None ->
     create_grid_segment (F:=Q) g gv rows cols sf (Some pr) (Some pc)
     = Raise NameError).
Proof.
  intros HD. split; [|split].
  - intros F HF. apply main_segments_static.
  - apply main_segments_exact.
  - intros Hv Hgv rows cols sf pr pc Hr Hc Hpr Hpc Hsf.
    pose proof Hv as (HW & HH & Hvw & Hvh).
    pose proof (layout_exact g rows cols) as Hlay.
    apply returns_Ok in Hlay as ([[sw sh] pos] & Hl & _); [|lia..].
    pose proof (layout_exact g pr pc) as Hprev.
    apply returns_Ok in Hprev as ([[pw ph] ppos] & Hlp & _); [|lia..].
    eapply create_grid_segment_unbound; try eassumption.
    + unfold previous_layout. rewrite !truthy_pos by assumption.
      simpl. rewrite Hlp. reflexivity.
    + now apply static_call_animated.
    + nia.
Qed.

Lemma main_never_animates_witness :
  (∀ (F : Type) (HF : PyFloat F),
     raises_only arith_error (main_segments (F:=F) defaults ["a.mp4"%string])
     ∧
     ∀ segs, main_segments (F:=F) defaults ["a.mp4"%string] = Ok segs ->
       Forall2 (λ rc seg,
         ∃ sw sh pos,
           calculate_grid_layout (F:=F) defaults rc.1 rc.2
             = Ok (sw, sh, pos) ∧
           seg_overlays seg = static_at pos <$> range (rc.1 * rc.2))
         (generate_grid_sequence defaults) segs) ∧
  (valid_config defaults -> ["a.mp4"%string] ≠ [] ->
   ∃ segs, main_segments (F:=Q) defaults ["a.mp4"%string] = Ok segs ∧
           length segs = Z.to_nat (MAX_GRID_SIZE defaults)) ∧
  (valid_config defaults -> ["a.mp4"%string] ≠ [] ->
   ∀ rows cols sf pr pc,
     1 <= rows -> 1 <= cols -> 1 <= pr -> 1 <= pc -> sf ≠ None ->
     create_grid_segment (F:=Q) defaults ["a.mp4"%string] rows cols sf
       (Some pr) (Some pc)
     = Raise NameError).
Proof.
  apply (main_never_animates defaults ["a.mp4"%string]).
  reflexivity.
Defined.

(** * Further properties of the layout *)

(** ** A grid without rows or columns *)






(** ** Rows and columns *)

Section AnyFloatGrid.
Context {F : Type} `{PyFloat F}.

Lemma place_Ok_coords cols sw sh (hg vg ox oy : pynum F) acc i m :
  place cols sw sh hg vg ox oy acc i = Ok m ->
  ∃ x y, cell_coord ox hg sw (i mod cols) = Ok x ∧
         cell_coord oy vg sh (i / cols) = Ok y ∧
         m = <[i := (x, y)]> acc.
Proof.
  unfold place, py_floordiv, py_mod. intros Hp.
  destruct (cols =? 0); [discriminate|].
  cbn [mbind result_bind] in Hp.
  apply bind_Ok_inv in Hp as (x & Hx & Hp).
  apply bind_Ok_inv in Hp as (y & Hy & Hp).
  injection Hp as <-. exists x, y. auto.
Qed.

Lemma for_each_place_coords cols sw sh (hg vg ox oy : pynum F) xs acc m :
  for_each xs (place cols sw sh hg vg ox oy) acc = Ok m ->
  ∀ i x y, m !! i = Some (x, y) ->
    (cell_coord ox hg sw (i mod cols) = Ok x ∧
     cell_coord oy vg sh (i / cols) = Ok y) ∨
    acc !! i = Some (x, y).
Proof.
  revert acc. induction xs as [|k xs IH]; intros acc Hm i x y Hi.
  - injection Hm as <-. now right.
  - cbn [for_each] in Hm. apply bind_Ok_inv in Hm as (acc' & Hp & Hm).
    apply place_Ok_coords in Hp as (xk & yk & Hxk & Hyk & ->).
    destruct (IH _ Hm i x y Hi) as [Hcoords|Hacc]; [now left|].
    destruct (decide (i = k)) as [->|Hne].
    + rewrite lookup_insert_eq in Hacc. injection Hacc as <- <-. now left.
    + rewrite lookup_insert_ne in Hacc by done. now right.
Qed.

(** Every position of a layout is computed from the column and the row of
    its cell alone, with one offset and one gap per axis. *)
Lemma layout_coords (g : globals) rows cols sw sh (pos : positions_t) :
  calculate_grid_layout (F:=F) g rows cols = Ok (sw, sh, pos) ->
  ∃ hg vg ox oy, ∀ i x y, pos !! i = Some (x, y) ->
    cell_coord ox hg sw (i mod cols) = Ok x ∧
    cell_coord oy vg sh (i / cols) = Ok y.
Proof.
  unfold calculate_grid_layout. intros Hl.
  apply bind_Ok_inv in Hl as ([[[sw' sh'] hg] vg] & _ & Hl).
  apply bind_Ok_inv in Hl as (tw & _ & Hl).
  apply bind_Ok_inv in Hl as (th & _ & Hl).
  apply bind_Ok_inv in Hl as (ox & _ & Hl).
  apply bind_Ok_inv in Hl as (oy & _ & Hl).
  apply bind_Ok_inv in Hl as (pos' & Hfor & Hl).
  injection Hl as <- <- <-.
  exists hg, vg, ox, oy. intros i x y Hi.
  destruct (for_each_place_coords _ _ _ _ _ _ _ _ _ _ Hfor i x y Hi)
    as [Hc|Hempty]; [exact Hc|].
  now rewrite lookup_empty in Hempty.
Qed.
End AnyFloatGrid.

(** X2. Under any float arithmetic the cells of a layout form a grid: two
    cells of the same column ([i mod cols]) have the same x, and two cells
    of the same row ([i // cols]) have the same y. *)
Theorem layout_rows_and_columns_aligned {F : Type} `{PyFloat F}
    (g : globals) (rows cols sw sh : Z) (pos : positions_t) :
  calculate_grid_layout (F:=F) g rows cols = Ok (sw, sh, pos) ->
  ∀ i j xi yi xj yj,
    pos !! i = Some (xi, yi) -> pos !! j = Some (xj, yj) ->
    (i mod cols = j mod cols -> xi = xj) ∧ (i / cols = j / cols -> yi = yj).
Proof.
  intros Hl i j xi yi xj yj Hi Hj.
  destruct (layout_coords g _ _ _ _ _ Hl) as (hg & vg & ox & oy & Hc).
  destruct (Hc i xi yi Hi) as [Hxi Hyi], (Hc j xj yj Hj) as [Hxj Hyj].
  split.
  - intros Hcol. rewrite Hcol, Hxj in Hxi. now injection Hxi.
  - intros Hrow. rewrite Hrow, Hyj in Hyi. now injection Hyi.
Qed.

Lemma layout_rows_and_columns_aligned_witness :
  let pos : positions_t :=
    <[0 := (336, 18)]> (<[1 := (1128, 18)]>
      (<[2 := (336, 549)]> (<[3 := (1128, 549)]> ∅))) in
  calculate_grid_layout (F:=float) defaults 2 2 = Ok (456, 513, pos) ∧
  ∀ i j xi yi xj yj,
    pos !! i = Some (xi, yi) -> pos !! j = Some (xj, yj) ->
    (i mod 2 = j mod 2 -> xi = xj) ∧ (i / 2 = j / 2 -> yi = yj).
Proof.
  intros pos. split; [vm_compute; reflexivity|].
  apply (layout_rows_and_columns_aligned (F:=float) defaults 2 2 456 513).
  vm_compute. reflexivity.
Defined.

(** ** Margins, pitch and aspect ratio under exact arithmetic *)

Section AxisMore.
Variable g : globals.




End AxisMore.




(** The same holds under doubles for the square grids of up to 10 x 10
    cells of every configuration in [prompted_configs]. *)
Example prompted_grids_centered_doubles :
  forallb (λ g, forallb (λ n, margins_b (F:=float) g n n) (seqZ 1 10))
    prompted_configs = true.
Proof. vm_compute. reflexivity. Qed.



Example prompted_neighbours_do_not_overlap_doubles :
  forallb (λ g, forallb (λ n, pitch_b (F:=float) g n n) (seqZ 1 10))
    prompted_configs = true.
Proof. vm_compute. reflexivity. Qed.



Example prompted_cells_keep_aspect_doubles :
  forallb (λ g, forallb (λ n, aspect_b (F:=float) g n n) (seqZ 1 10))
    prompted_configs = true.
Proof. vm_compute. reflexivity. Qed.

(** ** Growing the grid *)





Example prompted_cells_shrink_doubles :
  forallb (λ g, forallb (shrinks_b (F:=float) g) (seqZ 1 10))
    prompted_configs = true.
Proof. vm_compute. reflexivity. Qed.

(** ** The margins of the minimal mode *)




Example prompted_minimal_margins_doubles :
  forallb (λ g,
    if mode_minimal g
    then forallb (λ n, margins_at_least_b (F:=float) 10 g n n) (seqZ 1 10)
    else true)
    prompted_configs = true.
Proof. vm_compute. reflexivity. Qed.

(** * Further properties of the segments *)

Section SegmentShape.
Context {F : Type} `{PyFloat F}.
Variable g : globals.

(** The loop "Add videos as inputs" returns only when there is a video to
    choose from or no cell to fill. *)
Lemma inputs_inv (gv : list string) (n : Z) (inputs : list Z) :
  for_each (range n)
    (λ acc i, video_idx ← py_mod i (Z.of_nat (length gv));
              Ok (acc ++ [video_idx])) []
  = Ok inputs ->
  inputs = chosen_inputs gv n ∧ (0 < n -> gv ≠ []).
Proof.
  intros Hin. destruct (decide (gv = [])) as [->|Hgv].
  - destruct (decide (0 < n)) as [Hn|Hn].
    + exfalso. unfold range in Hin. rewrite seqZ_cons in Hin by lia.
      rewrite (for_each_collect_Raise _ ZeroDivisionError) in Hin;
        [discriminate|reflexivity].
    + unfold chosen_inputs, range in *. rewrite seqZ_nil in * by lia.
      simpl in Hin. injection Hin as <-. split; [reflexivity|lia].
  - rewrite (inputs_Ok gv n Hgv) in Hin. injection Hin as <-. done.
Qed.

Lemma lookup_chosen_inputs (gv : list string) (n : Z) (k : nat) (idx : Z) :
  chosen_inputs gv n !! k = Some idx ->
  Z.of_nat k < n ∧ idx = Z.of_nat k mod Z.of_nat (length gv).
Proof.
  unfold chosen_inputs, range. rewrite list_lookup_fmap.
  destruct (seqZ 0 n !! k) as [i|] eqn:Hk; [|discriminate].
  apply lookup_seqZ in Hk as [-> Hlt]. simpl. intros [= <-].
  split; [lia|]. f_equal.
Qed.

(** What a call that returns hands to the compositor. *)
Lemma segment_inv (gv : list string) (rows cols : Z) (sf : option string)
    (pr pc : option Z) (seg : segment) :
  create_grid_segment (F:=F) g gv rows cols sf pr pc = Ok seg ->
  seg_inputs seg = chosen_inputs gv (rows * cols) ∧
  (0 < rows * cols -> gv ≠ []) ∧
  length (seg_overlays seg) = Z.to_nat (rows * cols).
Proof.
  intros Hseg. unfold create_grid_segment in Hseg.
  apply bind_Ok_inv in Hseg as ([[sw sh] pos] & Hl & Hseg).
  apply bind_Ok_inv in Hseg as ([pnum ppos] & Hp & Hseg).
  apply bind_Ok_inv in Hseg as (inputs & Hin & Hseg).
  apply bind_Ok_inv in Hseg as (overlays & Hov & Hseg).
  injection Hseg as <-. simpl.
  apply inputs_inv in Hin as [-> Hgv].
  split; [reflexivity|]. split; [exact Hgv|].
  apply for_each_collect_inv in Hov as (os & -> & Hall). simpl.
  apply Forall2_length in Hall. rewrite <- Hall.
  unfold range. apply length_seqZ.
Qed.
End SegmentShape.

(** X7. A segment that is created has one input and one overlay for each
    of the [rows * cols] cells, and the input of cell [k] is
    [k % len(grid_videos)], a valid index of [grid_videos]: the lookup
    [grid_videos[video_idx]] cannot be out of range.  This holds for any
    float arithmetic. *)
Theorem segment_one_input_per_cell {F : Type} `{PyFloat F} (g : globals)
    (gv : list string) (rows cols : Z) (sf : option string)
    (pr pc : option Z) (seg : segment) :
  create_grid_segment (F:=F) g gv rows cols sf pr pc = Ok seg ->
  length (seg_inputs seg) = Z.to_nat (rows * cols) ∧
  length (seg_overlays seg) = Z.to_nat (rows * cols) ∧
  ∀ (k : nat) (idx : Z), seg_inputs seg !! k = Some idx ->
    idx = Z.of_nat k mod Z.of_nat (length gv) ∧
    0 <= idx < Z.of_nat (length gv).
Proof.
  intros Hseg. apply segment_inv in Hseg as (Hin & Hgv & Hov).
  rewrite Hin. split; [|split; [exact Hov|]].
  - unfold chosen_inputs, range. now rewrite length_fmap, length_seqZ.
  - intros k idx Hk. apply lookup_chosen_inputs in Hk as [Hlt ->].
    split; [reflexivity|]. apply Z.mod_pos_bound.
    assert (gv ≠ []) as Hne by (apply Hgv; lia).
    destruct gv; [done|]. simpl. lia.
Qed.

Lemma segment_one_input_per_cell_witness :
  length (seg_inputs
    {| seg_inputs := [0; 1; 0; 1]; seg_scale := (456, 513);
       seg_overlays := [Static 336 18; Static 1128 18;
                        Static 336 549; Static 1128 549] |})
    = Z.to_nat (2 * 2) ∧
  length (seg_overlays
    {| seg_inputs := [0; 1; 0; 1]; seg_scale := (456, 513);
       seg_overlays := [Static 336 18; Static 1128 18;
                        Static 336 549; Static 1128 549] |})
    = Z.to_nat (2 * 2) ∧
  ∀ (k : nat) (idx : Z),
    seg_inputs
      {| seg_inputs := [0; 1; 0; 1]; seg_scale := (456, 513);
         seg_overlays := [Static 336 18; Static 1128 18;
                          Static 336 549; Static 1128 549] |} !! k
      = Some idx ->
    idx = Z.of_nat k mod Z.of_nat (length ["a.mp4"; "b.mp4"]%string) ∧
    0 <= idx < Z.of_nat (length ["a.mp4"; "b.mp4"]%string).
Proof.
  apply (segment_one_input_per_cell (F:=float) defaults
           ["a.mp4"; "b.mp4"]%string 2 2 None None None).
  vm_compute. reflexivity.
Defined.

(** X8. With no video to choose from, a grid of at least one cell cannot be
    filled: once the layouts are computed, the first [i % len(grid_videos)]
    divides by zero.  This holds for any float arithmetic. *)
Theorem no_videos_raises {F : Type} `{PyFloat F} (g : globals)
    (rows cols : Z) (sf : option string) (pr pc : option Z)
    (sw sh : Z) (pos : positions_t) (pnum : Z) (ppos : positions_t) :
  calculate_grid_layout (F:=F) g rows cols = Ok (sw, sh, pos) ->
  previous_layout (F:=F) g pr pc = Ok (pnum, ppos) ->
  0 < rows * cols ->
  create_grid_segment (F:=F) g [] rows cols sf pr pc
  = Raise ZeroDivisionError.
Proof.
  intros Hl Hp Hn. unfold create_grid_segment.
  rewrite Hl. cbn [mbind result_bind]. rewrite Hp. cbn [mbind result_bind].
  unfold range. rewrite seqZ_cons by lia.
  rewrite (for_each_collect_Raise
             (λ i, py_mod i (Z.of_nat (length (@nil string))))
             ZeroDivisionError);
    reflexivity.
Qed.

Lemma no_videos_raises_witness :
  create_grid_segment (F:=float) defaults [] 2 2 None None None
  = Raise ZeroDivisionError.
Proof.
  apply (no_videos_raises (F:=float) defaults 2 2 None None None
           456 513
           (<[0 := (336, 18)]> (<[1 := (1128, 18)]>
              (<[2 := (336, 549)]> (<[3 := (1128, 549)]> ∅)))) 0 ∅).
  - vm_compute. reflexivity.
  - reflexivity.
  - lia.
Defined.

(** X9. The cells of a segment that is created all show different videos
    exactly when there are at least as many videos as cells; with fewer,
    cell [len(grid_videos)] shows the video of cell 0 again.  This holds
    for any float arithmetic. *)
Theorem cells_show_distinct_videos_iff {F : Type} `{PyFloat F} (g : globals)
    (gv : list string) (rows cols : Z) (sf : option string)
    (pr pc : option Z) (seg : segment) :
  create_grid_segment (F:=F) g gv rows cols sf pr pc = Ok seg ->
  (NoDup (seg_inputs seg) ↔ rows * cols <= Z.of_nat (length gv)) ∧
  (Z.of_nat (length gv) < rows * cols ->
   seg_inputs seg !! 0%nat = Some 0 ∧
   seg_inputs seg !! length gv = Some 0).
Proof.
  intros Hseg. apply segment_inv in Hseg as (Hin & Hgv & _).
  rewrite Hin.
  assert (Z.of_nat (length gv) < rows * cols ->
          chosen_inputs gv (rows * cols) !! 0%nat = Some 0 ∧
          chosen_inputs gv (rows * cols) !! length gv = Some 0) as Hwrap.
  { intros Hlt.
    assert (gv ≠ []) as Hne by (apply Hgv; lia).
    assert (0 < Z.of_nat (length gv)) as Hlen
      by (destruct gv; [done|simpl; lia]).
    unfold chosen_inputs, range. rewrite !list_lookup_fmap.
    rewrite !lookup_seqZ_lt by lia. simpl.
    rewrite Z.mod_0_l, Z.mod_same by lia. done. }
  split; [split|exact Hwrap].
  - intros Hnd.
    destruct (decide (rows * cols <= Z.of_nat (length gv))) as [|Hgt];
      [assumption|].
    destruct Hwrap as [H0 HL]; [lia|].
    assert (gv ≠ []) as Hne by (apply Hgv; lia).
    pose proof (NoDup_lookup _ _ _ _ Hnd H0 HL) as Heq.
    destruct gv; [done|discriminate].
  - intros Hle. unfold chosen_inputs, range.
    apply NoDup_fmap_2_strong; [|apply NoDup_seqZ].
    intros x y Hx Hy Hxy.
    apply elem_of_seqZ in Hx, Hy.
    rewrite !Z.mod_small in Hxy by lia. exact Hxy.
Qed.

Lemma cells_show_distinct_videos_iff_witness :
  (NoDup (seg_inputs
     {| seg_inputs := [0; 1; 0; 1]; seg_scale := (456, 513);
        seg_overlays := [Static 336 18; Static 1128 18;
                         Static 336 549; Static 1128 549] |})
   ↔ 2 * 2 <= Z.of_nat (length ["a.mp4"; "b.mp4"]%string)) ∧
  (Z.of_nat (length ["a.mp4"; "b.mp4"]%string) < 2 * 2 ->
   seg_inputs
     {| seg_inputs := [0; 1; 0; 1]; seg_scale := (456, 513);
        seg_overlays := [Static 336 18; Static 1128 18;
                         Static 336 549; Static 1128 549] |} !! 0%nat
     = Some 0 ∧
   seg_inputs
     {| seg_inputs := [0; 1; 0; 1]; seg_scale := (456, 513);
        seg_overlays := [Static 336 18; Static 1128 18;
                         Static 336 549; Static 1128 549] |}
     !! length ["a.mp4"; "b.mp4"]%string
     = Some 0).
Proof.
  apply (cells_show_distinct_videos_iff (F:=float) defaults
           ["a.mp4"; "b.mp4"]%string 2 2 None None None).
  vm_compute. reflexivity.
Defined.

(** * Further properties of the slide *)


(** The curve is symmetric about its midpoint. *)
Lemma smoothstep_value_symm (u : Q) :
  (smoothstep_value u + smoothstep_value (1 - u) == 1)%Q.
Proof. unfold smoothstep_value. simpl Qpower. ring. Qed.

(** A coordinate over the whole slide, its end included, as the eased
    fraction of the way from start to end. *)
Lemma eval_slide_frac (D : Q) (s e : Z) (t : Q) :
  (0 < D)%Q -> (0 <= t)%Q -> (t <= D)%Q ->
  ∃ p, eval t (slide_expr D s e) = Some p ∧
       (0 <= t / D)%Q ∧ (t / D <= 1)%Q ∧
       (p == inject_Z s
             + (inject_Z e - inject_Z s) * smoothstep_value (t / D))%Q.
Proof.
  intros HD H0 H1.
  assert (¬ (D == 0)%Q) as HDne by lra.
  assert (0 <= t / D)%Q as Hu0 by (apply Qle_shift_div_l; lra).
  assert (t / D <= 1)%Q as Hu1 by (apply Qle_shift_div_r; lra).
  destruct (Qlt_le_dec t D) as [Hlt|Hge].
  - rewrite eval_slide_during by assumption.
    eexists. split; [reflexivity|]. split; [exact Hu0|].
    split; [exact Hu1|]. reflexivity.
  - rewrite eval_slide_after by assumption.
    eexists. split; [reflexivity|]. split; [exact Hu0|].
    split; [exact Hu1|].
    assert (t / D == 1)%Q as Hone.
    { assert (t == D)%Q as -> by lra. field. exact HDne. }
    rewrite Hone, smoothstep_value_1. ring.
Qed.




(** X11. The slide is symmetric in time: with [SLIDE_DURATION = D > 0], the
    coordinate at [t] and the coordinate at [D - t] are mirror images about
    the midpoint of start and end, so half way through the slide a cell is
    half way along. *)
Theorem slide_time_symmetric (D : Q) (s e : Z) (t : Q) :
  (0 < D)%Q -> (0 <= t)%Q -> (t <= D)%Q ->
  ∃ p q,
    eval t (slide_expr D s e) = Some p ∧
    eval (D - t) (slide_expr D s e) = Some q ∧
    (p + q == inject_Z s + inject_Z e)%Q ∧
    ((t == D / 2)%Q -> (p == (inject_Z s + inject_Z e) / 2)%Q).
Proof.
  intros HD H0 H1.
  assert (¬ (D == 0)%Q) as HDne by lra.
  destruct (eval_slide_frac D s e t HD H0 H1) as (p & Hp & _ & _ & Hq).
  destruct (eval_slide_frac D s e (D - t) HD ltac:(lra) ltac:(lra))
    as (q & Hq' & _ & _ & Hqq).
  exists p, q. split; [exact Hp|]. split; [exact Hq'|].
  assert ((D - t) / D == 1 - t / D)%Q as Hmirror by (field; exact HDne).
  rewrite Hmirror in Hqq.
  pose proof (smoothstep_value_symm (t / D)) as Hsym.
  set (f := smoothstep_value (t / D)) in *.
  set (f' := smoothstep_value (1 - t / D)) in *.
  assert (p + q == inject_Z s + inject_Z e)%Q as Hsum.
  { rewrite Hq, Hqq.
    assert (f' == 1 - f)%Q as -> by lra. ring. }
  split; [exact Hsum|].
  intros Hhalf.
  assert (p == q)%Q as Hpq.
  { rewrite Hq, Hqq. unfold f, f'.
    assert (t / D == 1 - t / D)%Q as <-; [|reflexivity].
    rewrite Hhalf. field. exact HDne. }
  rewrite <- Hsum, <- Hpq. field.
Qed.

Lemma slide_time_symmetric_witness :
  ∃ p q,
    eval (1 # 2) (slide_expr 1 1920 960) = Some p ∧
    eval (1 - (1 # 2)) (slide_expr 1 1920 960) = Some q ∧
    (p + q == inject_Z 1920 + inject_Z 960)%Q ∧
    (((1 # 2) == 1 / 2)%Q -> (p == (inject_Z 1920 + inject_Z 960) / 2)%Q).
Proof.
  apply (slide_time_symmetric 1 1920 960 (1 # 2)).
  - reflexivity.
  - discriminate.
  - discriminate.
Defined.

(** * Further properties of the segment loop of [main] *)

Lemma lookup_generate_grid_sequence (g : globals) (j : nat) (rc : Z * Z) :
  generate_grid_sequence g !! j = Some rc ->
  rc = (Z.of_nat j + 1, Z.of_nat j + 1) ∧ Z.of_nat j < MAX_GRID_SIZE g.
Proof.
  unfold generate_grid_sequence. rewrite list_lookup_fmap.
  destruct (seqZ 1 (MAX_GRID_SIZE g) !! j) as [size|] eqn:Hj; [|discriminate].
  apply lookup_seqZ in Hj as [-> Hlt]. simpl. intros [= <-].
  split; [f_equal; lia|lia].
Qed.

(** X12. The grid grows by one row and one column per state.  When the
    segment loop of [main] completes, it has created [MAX_GRID_SIZE]
    segments (none when [MAX_GRID_SIZE <= 0]), and segment number [j],
    counted from 0, is the [(j + 1) x (j + 1)] grid: it has [(j + 1)²]
    inputs and as many overlays.  This holds for any float arithmetic. *)
Theorem main_grid_grows_by_one {F : Type} `{PyFloat F} (g : globals)
    (gv : list string) (segs : list segment) :
  main_segments (F:=F) g gv = Ok segs ->
  length segs = Z.to_nat (MAX_GRID_SIZE g) ∧
  ∀ (j : nat) (seg : segment), segs !! j = Some seg ->
    length (seg_inputs seg) = ((j + 1) * (j + 1))%nat ∧
    length (seg_overlays seg) = ((j + 1) * (j + 1))%nat ∧
    seg_inputs seg
    = chosen_inputs gv ((Z.of_nat j + 1) * (Z.of_nat j + 1)).
Proof.
  intros Hsegs. rewrite main_segments_calls in Hsegs.
  apply for_each_collect_inv in Hsegs as (os & -> & Hall). simpl.
  split.
  - rewrite <- (Forall2_length _ _ _ Hall).
    unfold generate_grid_sequence. now rewrite length_fmap, length_seqZ.
  - intros j seg Hj.
    destruct (Forall2_lookup_r _ _ _ _ _ Hall Hj) as (rc & Hrc & Hseg).
    apply lookup_generate_grid_sequence in Hrc as [-> _].
    simpl in Hseg. apply segment_inv in Hseg as (Hin & _ & Hov).
    rewrite Hin, Hov. unfold chosen_inputs, range.
    rewrite length_fmap, length_seqZ. repeat split; lia.
Qed.

Lemma main_grid_grows_by_one_witness :
  ∃ segs,
    main_segments (F:=float)
      {| OUTPUT_WIDTH := 1920; OUTPUT_HEIGHT := 1080; MAX_GRID_SIZE := 2;
         USE_CABINET := true; SPACING_MODE := "even";
         CABINET_PNG_WIDTH := 659; CABINET_PNG_HEIGHT := 741;
         SLIDE_DURATION := None |}
      ["a.mp4"; "b.mp4"]%string = Ok segs ∧
    length segs = Z.to_nat 2 ∧
    ∀ (j : nat) (seg : segment), segs !! j = Some seg ->
      length (seg_inputs seg) = ((j + 1) * (j + 1))%nat ∧
      length (seg_overlays seg) = ((j + 1) * (j + 1))%nat ∧
      seg_inputs seg
      = chosen_inputs ["a.mp4"; "b.mp4"]%string
          ((Z.of_nat j + 1) * (Z.of_nat j + 1)).
Proof.
  eexists. split; [vm_compute; reflexivity|].
  apply (main_grid_grows_by_one (F:=float)
           {| OUTPUT_WIDTH := 1920; OUTPUT_HEIGHT := 1080; MAX_GRID_SIZE := 2;
              USE_CABINET := true; SPACING_MODE := "even";
              CABINET_PNG_WIDTH := 659; CABINET_PNG_HEIGHT := 741;
              SLIDE_DURATION := None |}
           ["a.mp4"; "b.mp4"]%string).
  vm_compute. reflexivity.
Defined.

(** * Looping a clip *)

(** X13. Looping never divides by zero: whatever the duration asked for
    and whatever [get_video_duration] returned for the clip, [num_loops]
    raises nothing but the OverflowError and ValueError of [float] and
    [int]; a clip duration of zero (of either sign) or [None] is given up
    on before the division.  This holds for any float arithmetic. *)
Theorem looping_never_divides_by_zero {F : Type} `{PyFloat F}
    (duration : pynum F) (clip_duration : option F) :
  raises_only (λ e, e = OverflowError ∨ e = ValueError)
    (num_loops duration clip_duration) ∧
  (not_duration clip_duration = true ->
   num_loops duration clip_duration = Ok None).
Proof.
  split.
  - unfold num_loops. destruct clip_duration as [c|]; [|exact I].
    unfold not_duration. destruct (fis_zero c) eqn:Hz; [exact I|].
    apply raises_only_bind; [|intros; exact I].
    unfold binop, val. cbn [mbind result_bind]. unfold py_truediv.
    cbn [is_zero]. rewrite Hz.
    apply raises_only_bind.
    { apply raises_only_bind.
      - destruct duration as [n|x]; simpl; [|exact I].
        unfold to_float. destruct (float_of_int n); simpl; auto.
      - intros x _. exact I. }
    intros [n|x] _; [exact I|]. unfold py_int.
    destruct (int_of_float x); [exact I|].
    unfold raises_only. destruct (fis_nan x); auto.
  - unfold num_loops. destruct clip_duration as [c|]; [|reflexivity].
    now intros ->.
Qed.



(** The five states of the default configuration last 50 seconds; clips of
    10 and of 3.5 seconds are written 7 and 16 times, under doubles as
    under exact arithmetic. *)
Example num_loops_default_scenario :
  num_loops (F:=float) (PyInt 50) (Some 10%float) = Ok (Some 7) ∧
  num_loops (F:=float) (PyInt 50) (Some 3.5%float) = Ok (Some 16) ∧
  num_loops (F:=Q) (PyInt 50) (Some 10%Q) = Ok (Some 7) ∧
  num_loops (F:=Q) (PyInt 50) (Some (7 # 2)) = Ok (Some 16) ∧
  num_loops (F:=float) (PyInt 50) (Some (-0)%float) = Ok None ∧
  num_loops (F:=float) (PyInt 50) (Some PrimFloat.nan) = Raise ValueError.
Proof. repeat split; vm_compute; reflexivity. Qed.

(** * Where a clip starts *)




(** A video of 95 seconds with the default clip of 10 seconds: a draw of
    0.5 starts the clip at 42.5 seconds, under doubles as under exact
    arithmetic; a video of 29.5 seconds is skipped. *)
Example start_time_scenario :
  start_time (F:=float) (PyInt 10) (Some 95%float) 0.5%float
    = Ok (Some (PyFlt 42.5%float)) ∧
  (∃ s, start_time (F:=Q) (PyInt 10) (Some 95%Q) (1 # 2) = Ok (Some s) ∧
        (qv s == 85 # 2)%Q) ∧
  start_time (F:=float) (PyInt 10) (Some 29.5%float) 0.5%float = Ok None ∧
  start_time (F:=float) (PyInt 10) None 0.5%float = Ok None.
Proof.
  split; [vm_compute; reflexivity|]. split; [|split; vm_compute; reflexivity].
  eexists. split; [vm_compute; reflexivity|]. reflexivity.
Qed.

(** * The prompts *)

Section PromptLoops.
Context {F : Type} `{PyFloat F}.
Variables strip lower : string -> string.
Variable int_of_str : string -> option Z.
Variable float_of_str : string -> option F.

Lemma ask_spacing_inv (lines : list string) (mode : string)
    (rest : list string) :
  ask_spacing strip lines = Returned (mode, rest) ->
  mode = "even"%string ∨ mode = "minimal"%string ∨ mode = "none"%string.
Proof.
  induction lines as [|l lines IH]; simpl; [discriminate|].
  destruct (spacing_map (str_or (strip l) "1")) as [m|] eqn:Hm; [|exact IH].
  intros [= <- _]. unfold spacing_map in Hm.
  repeat match type of Hm with
  | (if ?c then _ else _) = _ => destruct c
  end; try discriminate; injection Hm as <-; auto.
Qed.

Lemma ask_resolution_inv (lines : list string) (w h : Z)
    (rest : list string) :
  ask_resolution strip lines = Returned (w, h, rest) ->
  (w, h) = (1920, 1080) ∨ (w, h) = (3840, 2160).
Proof.
  induction lines as [|l lines IH]; simpl; [discriminate|].
  destruct (String.eqb (str_or (strip l) "1") "1").
  - intros [= <- <- _]. auto.
  - destruct (String.eqb (str_or (strip l) "1") "2"); [|exact IH].
    intros [= <- <- _]. auto.
Qed.

Lemma ask_grid_size_inv (lines : list string) (n : Z) (rest : list string) :
  ask_grid_size strip int_of_str lines = Returned (n, rest) -> 1 <= n.
Proof.
  induction lines as [|l lines IH]; simpl; [discriminate|].
  destruct (String.eqb (strip l) ""); [intros [= <- _]; lia|].
  destruct (int_of_str (strip l)) as [m|]; [|exact IH].
  destruct (0 <? m) eqn:Hm; [|exact IH].
  intros [= <- _]. apply Z.ltb_lt in Hm. lia.
Qed.

Lemma ask_clips_inv (max_clips_needed : Z) (lines : list string) (n : Z)
    (rest : list string) :
  1 <= max_clips_needed ->
  ask_clips strip int_of_str max_clips_needed lines = Returned (n, rest) ->
  1 <= n.
Proof.
  intros Hmax.
  induction lines as [|l lines IH]; simpl; [discriminate|].
  destruct (String.eqb (strip l) ""); [intros [= <- _]; lia|].
  destruct (int_of_str (strip l)) as [m|]; [|exact IH].
  destruct (0 <? m) eqn:Hm; [|exact IH].
  intros [= <- _]. apply Z.ltb_lt in Hm. lia.
Qed.

Lemma ask_duration_inv (lines : list string) (d : pynum F)
    (rest : list string) :
  ask_duration strip float_of_str lines = Returned (d, rest) ->
  positive_duration d.
Proof.
  unfold positive_duration.
  induction lines as [|l lines IH]; cbn [ask_duration]; [discriminate|].
  destruct (String.eqb (strip l) ""); [intros [= <- _]; auto|].
  destruct (float_of_str (strip l)) as [x|]; [|exact IH].
  destruct (py_lt (PyInt 0) (PyFlt x)) as [[|]|e] eqn:Hlt;
    [|exact IH|discriminate].
  intros [= <- _]. right. eauto.
Qed.

Lemma ask_crops_inv (lines : list string) (t r b l : Z)
    (rest : list string) :
  ask_crops strip int_of_str lines = Returned (t, r, b, l, rest) ->
  0 <= t ∧ 0 <= r ∧ 0 <= b ∧ 0 <= l.
Proof.
  induction lines as [lines IH] using (induction_ltof1 _ (@length string)).
  unfold ltof in IH.
  destruct lines as [|l1 rest1]; simpl; [discriminate|].
  destruct (int_or_0 int_of_str (strip l1)) as [t'|];
    [|apply IH; simpl; lia].
  destruct rest1 as [|l2 rest2]; [discriminate|].
  destruct (int_or_0 int_of_str (strip l2)) as [r'|];
    [|apply IH; simpl; lia].
  destruct rest2 as [|l3 rest3]; [discriminate|].
  destruct (int_or_0 int_of_str (strip l3)) as [b'|];
    [|apply IH; simpl; lia].
  destruct rest3 as [|l4 rest4]; [discriminate|].
  destruct (int_or_0 int_of_str (strip l4)) as [l'|];
    [|apply IH; simpl; lia].
  destruct ((0 <=? t') && (0 <=? r') && (0 <=? b') && (0 <=? l')) eqn:Hok;
    [|apply IH; simpl; lia].
  intros [= <- <- <- <- _].
  repeat (apply andb_true_iff in Hok as [Hok ?]). lia.
Qed.

Lemma outcome_bind_inv {A B : Type} (m : outcome A) (k : A -> outcome B)
    (b : B) :
  m ≫= k = Returned b -> ∃ a, m = Returned a ∧ k a = Returned b.
Proof. destruct m; simpl; try discriminate. eauto. Qed.

(** The steps of a run of [get_user_config] that returns. *)
Lemma get_user_config_steps (g : globals) (s : clip_settings F)
    (lines : list string) (g' : globals) (s' : clip_settings F)
    (rest : list string) :
  get_user_config strip lower int_of_str float_of_str g s lines
  = Returned (g', s', rest) ->
  ∃ l0 lines0 lines1 lines2 lines3 lines4 lines5 l6 lines6 lines7,
    input lines = Returned (l0, lines0) ∧
    ask_spacing strip lines0 = Returned (SPACING_MODE g', lines1) ∧
    ask_resolution strip lines1
      = Returned (OUTPUT_WIDTH g', OUTPUT_HEIGHT g', lines2) ∧
    ask_grid_size strip int_of_str lines2
      = Returned (MAX_GRID_SIZE g', lines3) ∧
    ask_clips strip int_of_str (MAX_GRID_SIZE g' * MAX_GRID_SIZE g') lines3
      = Returned (TOTAL_CLIPS s', lines4) ∧
    ask_duration strip float_of_str lines4
      = Returned (CLIP_DURATION s', lines5) ∧
    input lines5 = Returned (l6, lines6) ∧
    (if String.eqb (lower (strip l6)) "y"
     then ask_crops strip int_of_str lines6
     else Returned (CROP_TOP s, CROP_RIGHT s, CROP_BOTTOM s, CROP_LEFT s,
                    lines6))
      = Returned (CROP_TOP s', CROP_RIGHT s', CROP_BOTTOM s', CROP_LEFT s',
                  lines7) ∧
    USE_CABINET g' = negb (String.eqb (lower (strip l0)) "n") ∧
    CABINET_PNG_WIDTH g' = CABINET_PNG_WIDTH g ∧
    CABINET_PNG_HEIGHT g' = CABINET_PNG_HEIGHT g ∧
    SLIDE_DURATION g' = SLIDE_DURATION g.
Proof.
  unfold get_user_config. intros Hret.
  apply outcome_bind_inv in Hret as ([l0 lines0] & Hl0 & Hret).
  apply outcome_bind_inv in Hret as ([mode lines1] & Hmode & Hret).
  apply outcome_bind_inv in Hret as ([[w h] lines2] & Hres & Hret).
  apply outcome_bind_inv in Hret as ([n lines3] & Hn & Hret).
  apply outcome_bind_inv in Hret as ([c lines4] & Hc & Hret).
  apply outcome_bind_inv in Hret as ([d lines5] & Hd & Hret).
  apply outcome_bind_inv in Hret as ([l6 lines6] & Hl6 & Hret).
  apply outcome_bind_inv in Hret
    as ([[[[ct cr] cb] cl] lines7] & Hcrop & Hret).
  apply outcome_bind_inv in Hret as ([l8 lines8] & _ & Hret).
  destruct (negb (String.eqb (lower (strip l8)) "")
            && negb (String.eqb (lower (strip l8)) "y")); [discriminate|].
  injection Hret as <- <- _. simpl.
  exists l0, lines0, lines1, lines2, lines3, lines4, lines5, l6, lines6,
    lines7.
  repeat (split; [assumption || reflexivity|]). reflexivity.
Qed.
End PromptLoops.

(** X16. Whatever is typed at the prompts, and whatever [str.strip],
    [str.lower], [int] and [float] make of it, when [get_user_config]
    returns the spacing mode is one of the three the layout knows, the
    canvas is 1920x1080 or 3840x2160, the grid size and the number of
    clips are at least 1, the clip duration is the default 10 or a float
    greater than zero, the crop margins are untouched or not negative, and
    the cabinet dimensions are untouched.  This holds for any float
    arithmetic. *)
Theorem prompts_establish_configuration {F : Type} `{PyFloat F}
    (strip lower : string -> string) (int_of_str : string -> option Z)
    (float_of_str : string -> option F)
    (g : globals) (s : clip_settings F) (lines : list string)
    (g' : globals) (s' : clip_settings F) (rest : list string) :
  get_user_config strip lower int_of_str float_of_str g s lines
  = Returned (g', s', rest) ->
  (SPACING_MODE g' = "even"%string ∨ SPACING_MODE g' = "minimal"%string
   ∨ SPACING_MODE g' = "none"%string) ∧
  ((OUTPUT_WIDTH g', OUTPUT_HEIGHT g') = (1920, 1080)
   ∨ (OUTPUT_WIDTH g', OUTPUT_HEIGHT g') = (3840, 2160)) ∧
  1 <= MAX_GRID_SIZE g' ∧
  1 <= TOTAL_CLIPS s' ∧
  positive_duration (CLIP_DURATION s') ∧
  crops_kept_or_nonneg s s' ∧
  CABINET_PNG_WIDTH g' = CABINET_PNG_WIDTH g ∧
  CABINET_PNG_HEIGHT g' = CABINET_PNG_HEIGHT g ∧
  SLIDE_DURATION g' = SLIDE_DURATION g.
Proof.
  intros Hret.
  apply get_user_config_steps in Hret
    as (l0 & lines0 & lines1 & lines2 & lines3 & lines4 & lines5 & l6
        & lines6 & lines7 & _ & Hmode & Hres & Hn & Hc & Hd & _ & Hcrop
        & _ & Hpw & Hph & Hsd).
  apply ask_spacing_inv in Hmode. apply ask_resolution_inv in Hres.
  apply ask_grid_size_inv in Hn.
  apply ask_clips_inv in Hc; [|nia].
  apply ask_duration_inv in Hd.
  repeat (split; [assumption|]).
  split; [|done].
  unfold crops_kept_or_nonneg.
  destruct (String.eqb (lower (strip l6)) "y").
  - right. now apply ask_crops_inv in Hcrop.
  - left. now injection Hcrop as -> -> -> -> _.
Qed.

Lemma prompts_establish_configuration_witness :
  let g' := {| OUTPUT_WIDTH := 3840; OUTPUT_HEIGHT := 2160;
               MAX_GRID_SIZE := 3; USE_CABINET := false;
               SPACING_MODE := "minimal";
               CABINET_PNG_WIDTH := 659; CABINET_PNG_HEIGHT := 741;
               SLIDE_DURATION := None |} in
  let s' := {| TOTAL_CLIPS := 9; CLIP_DURATION := PyFlt 4%float;
               CROP_TOP := 0; CROP_RIGHT := 8; CROP_BOTTOM := 0;
               CROP_LEFT := 8 |} in
  (SPACING_MODE g' = "even"%string ∨ SPACING_MODE g' = "minimal"%string
   ∨ SPACING_MODE g' = "none"%string) ∧
  ((OUTPUT_WIDTH g', OUTPUT_HEIGHT g') = (1920, 1080)
   ∨ (OUTPUT_WIDTH g', OUTPUT_HEIGHT g') = (3840, 2160)) ∧
  1 <= MAX_GRID_SIZE g' ∧
  1 <= TOTAL_CLIPS s' ∧
  positive_duration (CLIP_DURATION s') ∧
  crops_kept_or_nonneg (default_clip_settings (F:=float)) s' ∧
  CABINET_PNG_WIDTH g' = CABINET_PNG_WIDTH defaults ∧
  CABINET_PNG_HEIGHT g' = CABINET_PNG_HEIGHT defaults ∧
  SLIDE_DURATION g' = SLIDE_DURATION defaults.
Proof.
  apply (prompts_establish_configuration (F:=float) id id numeral
           (λ s, n ← numeral s; float_of_Z n)
           defaults default_clip_settings
           ["n"; "7"; "2"; "2"; "0"; "x"; "3"; ""; "-"; "4";
            "y"; ""; "8"; "oops"; ""; "8"; ""; "8"; ""]%string
           _ _ []).
  vm_compute. reflexivity.
Defined.


